(** * cometbft-baseapp: the ABCI++ handlers of [comet/app.go]

    A shallow embedding of the application half of the CometBFT template:
    the handlers of [CometApp] ([CheckTx], [PrepareProposal],
    [ProcessProposal], [FinalizeBlock], [Commit], [Info], [Query]), the
    start-up read [GetLastBlockHashAndHeight] of [comet/run.go], and the
    hooks of [app/run.go].  The key/value store ([cometbft-db]) and the
    digest ([crypto/sha256]) are libraries the program calls; they are
    modelled in their own modules below. *)

From Stdlib Require Import ZArith Lia List Strings.Byte String.
From stdpp Require Import base option list countable gmap.
Import ListNotations.

Local Open Scope Z_scope.

(** ** Bytes and fixed-width integers *)

Module Bytes.

Abbreviation byte := Byte.byte.

(** Go's [[]byte] as a value; a slice that may be [nil] is an
    [option bytes] where it matters (see [Dbm.Get]). *)
Definition bytes := list byte.

(** [int64(b)], [uint64(b)] for a byte [b]. *)
Definition byte_to_Z (b : byte) : Z := Z.of_N (Byte.to_N b).

(** [byte(z)]: the conversion of an integer to [uint8] keeps the low
    eight bits. *)
Definition byte_of_Z (z : Z) : byte :=
  match Byte.of_N (Z.to_N (z mod 256)) with
  | Some b => b
  | None => Byte.x00
  end.

(** [[]byte("...")] *)
Definition of_string (s : string) : bytes := list_byte_of_string s.

Definition min_int64 : Z := - 2 ^ 63.
Definition max_int64 : Z := 2 ^ 63 - 1.

(** The value of an [int64] expression whose mathematical result is
    [z]: Go integer arithmetic wraps around silently. *)
Definition wrap64 (z : Z) : Z := (z + 2 ^ 63) mod 2 ^ 64 - 2 ^ 63.

(** [uint64(z)] for an [int64] [z]. *)
Definition to_uint64 (z : Z) : Z := z mod 2 ^ 64.

(** [int64(len(b))]: a slice length is a non-negative [int], so the
    conversion is exact. *)
Definition len (b : bytes) : Z := Z.of_nat (length b).

(** The [n] low bytes of [z], most significant first. *)
Fixpoint be_bytes (n : nat) (z : Z) : bytes :=
  match n with
  | O => []
  | S k => byte_of_Z (Z.shiftr z (8 * Z.of_nat k)) :: be_bytes k z
  end.

(** [binary.BigEndian.PutUint64(hb[:], v)] on an 8-byte array. *)
Definition PutUint64 (v : Z) : bytes := be_bytes 8 v.

#[global] Instance byte_eq_dec : EqDecision byte := Byte.byte_eq_dec.

#[global] Instance byte_countable : Countable byte :=
  inj_countable Byte.to_N Byte.of_N Byte.of_to_N.

End Bytes.
Import Bytes.

(** ** [crypto/sha256] (FIPS 180-4) *)

Module SHA256.

Definition w32 (z : Z) : Z := z mod 2 ^ 32.

Definition rotr (n x : Z) : Z :=
  Z.lor (Z.shiftr x n) (w32 (Z.shiftl x (32 - n))).

Definition Ch (x y z : Z) : Z :=
  Z.lxor (Z.land x y) (Z.land (w32 (Z.lnot x)) z).
Definition Maj (x y z : Z) : Z :=
  Z.lxor (Z.lxor (Z.land x y) (Z.land x z)) (Z.land y z).
Definition Sigma0 (x : Z) : Z :=
  Z.lxor (Z.lxor (rotr 2 x) (rotr 13 x)) (rotr 22 x).
Definition Sigma1 (x : Z) : Z :=
  Z.lxor (Z.lxor (rotr 6 x) (rotr 11 x)) (rotr 25 x).
Definition sigma0 (x : Z) : Z :=
  Z.lxor (Z.lxor (rotr 7 x) (rotr 18 x)) (Z.shiftr x 3).
Definition sigma1 (x : Z) : Z :=
  Z.lxor (Z.lxor (rotr 17 x) (rotr 19 x)) (Z.shiftr x 10).

(** The round constants are defined as FIPS 180-4 defines them: the
    first 32 bits of the fractional parts of the cube roots ([K]) and of
    the square roots ([H0]) of the first primes. *)
Definition is_prime (n : Z) : bool :=
  forallb (fun d => negb (n mod Z.of_nat d =? 0)) (seq 2 (Z.to_nat n - 2)).

Definition primes (count : nat) : list Z :=
  firstn count (filter is_prime (map Z.of_nat (seq 2 400))).

(** The integer cube root of [n], one bit at a time from bit [bits]. *)
Fixpoint cube_root (bits : nat) (r n : Z) : Z :=
  match bits with
  | O => r
  | S k =>
      let r' := r + 2 ^ Z.of_nat k in
      cube_root k (if r' * r' * r' <=? n then r' else r) n
  end.

Definition K : list Z :=
  Eval vm_compute in
    map (fun p => w32 (cube_root 40 0 (p * 2 ^ 96))) (primes 64).

Definition H0 : list Z :=
  Eval vm_compute in
    map (fun p => w32 (Z.sqrt (p * 2 ^ 64))) (primes 8).

(** Message padding: a one bit, zeros up to 56 modulo 64, then the
    length in bits as a 64-bit big-endian integer. *)
Definition pad (msg : bytes) : bytes :=
  let n := Z.of_nat (length msg) in
  msg ++ [Byte.x80]
      ++ repeat Byte.x00 (Z.to_nat ((55 - n) mod 64))
      ++ PutUint64 (to_uint64 (8 * n)).

Fixpoint words (bs : bytes) : list Z :=
  match bs with
  | a :: b :: c :: d :: rest =>
      (byte_to_Z a * 2 ^ 24 + byte_to_Z b * 2 ^ 16
       + byte_to_Z c * 2 ^ 8 + byte_to_Z d) :: words rest
  | _ => []
  end.

(** The message schedule: [w] holds W_0..W_{t-1}, latest first. *)
Fixpoint schedule (n : nat) (w : list Z) : list Z :=
  match n with
  | O => w
  | S k =>
      let wt := w32 (sigma1 (nth 1 w 0) + nth 6 w 0
                     + sigma0 (nth 14 w 0) + nth 15 w 0) in
      schedule k (wt :: w)
  end.

Definition round (s : list Z) (kw : Z * Z) : list Z :=
  match s with
  | [a; b; c; d; e; f; g; h] =>
      let t1 := w32 (h + Sigma1 e + Ch e f g + fst kw + snd kw) in
      let t2 := w32 (Sigma0 a + Maj a b c) in
      [w32 (t1 + t2); a; b; c; w32 (d + t1); e; f; g]
  | _ => s
  end.

Definition compress (h : list Z) (block : list Z) : list Z :=
  let w := rev (schedule 48 (rev block)) in
  let s := fold_left round (combine K w) h in
  map (fun p => w32 (fst p + snd p)) (combine h s).

Fixpoint blocks (fuel : nat) (h : list Z) (ws : list Z) : list Z :=
  match fuel with
  | O => h
  | S k =>
      match ws with
      | [] => h
      | _ => blocks k (compress h (firstn 16 ws)) (skipn 16 ws)
      end
  end.

(** [sha256.Sum256] as a slice: the 32-byte digest of [msg]. *)
Definition sum (msg : bytes) : bytes :=
  let ws := words (pad msg) in
  flat_map (be_bytes 4) (blocks (length ws) H0 ws).

(** The [hash.Hash] returned by [sha256.New()]: what it has been fed. *)
Definition New : bytes := [].
Definition Write (h : bytes) (p : bytes) : bytes := h ++ p.
(** [h.Sum(nil)] *)
Definition Sum (h : bytes) : bytes := sum h.

End SHA256.

(** ** Go's [error] results *)

Module Go.

(** The errors the program can meet: those of the store's batch
    ([cometbft-db]); the hooks of [app/run.go] return none. *)
Inductive error : Type :=
| errKeyEmpty
| errValueNil
| errBatchClosed
| errFlush.

(** A Go result pair [(v, err)]: [Ok v] is [(v, nil)], [Err e] is
    [(nil, e)]. *)
Inductive result (A : Type) : Type :=
| Ok (a : A)
| Err (e : error).
Arguments Ok {A} a.
Arguments Err {A} e.

Definition bind {A B : Type} (r : result A) (k : A -> result B) : result B :=
  match r with
  | Ok a => k a
  | Err e => Err e
  end.

Definition is_ok {A : Type} (r : result A) : bool :=
  match r with Ok _ => true | Err _ => false end.

End Go.
Import Go.

Declare Scope go_scope.
Delimit Scope go_scope with go.
Notation "'let*' x ':=' m 'in' k" := (Go.bind m (fun x => k))
  (at level 10, x name, m at level 100, k at level 200) : go_scope.
Local Open Scope go_scope.

(** ** The store: [github.com/cometbft/cometbft-db]

    The part of the [dbm.DB] and [dbm.Batch] interfaces the program
    calls.  A store is its committed contents; a batch is the writes
    staged in it, oldest first. *)

Module Dbm.

Abbreviation DB := (gmap bytes bytes).

(** [db.Get(key)]: the value, or [nil] when the key is absent. *)
Definition Get (db : DB) (key : bytes) : option bytes := db !! key.

Definition Batch := list (bytes * bytes).

(** [db.NewBatch()] *)
Definition NewBatch : Batch := [].

(** [b.Set(key, value)]: an empty key and a [nil] value are refused. *)
Definition Set_ (b : Batch) (key : bytes) (value : option bytes) : result Batch :=
  match key, value with
  | [], _ => Err errKeyEmpty
  | _, None => Err errValueNil
  | _, Some v => Ok (b ++ [(key, v)])
  end.

Definition apply (db : DB) (b : Batch) : DB :=
  fold_left (fun m kv => <[fst kv := snd kv]> m) b db.

(** [b.WriteSync()]: all staged writes reach the store at once, or,
    when the engine reports a failure ([flush_ok = false]), none. *)
Definition WriteSync (flush_ok : bool) (b : Batch) (db : DB) : result DB :=
  if flush_ok then Ok (apply db b) else Err errFlush.

End Dbm.

(** ** The ABCI messages ([abci/types]) the handlers read and build *)

Module abci.

Record Event := { Type_ : string }.

Module CheckTxRequest.
Record t := { Tx : bytes; Type_ : Z }.
End CheckTxRequest.

Module CheckTxResponse.
Record t := { Code : Z; Data : option bytes; Log : string;
              Info : string; GasWanted : Z; GasUsed : Z;
              Events : list Event; Codespace : string }.
(** [&abci.CheckTxResponse{}] *)
Definition zero : t :=
  {| Code := 0; Data := None; Log := ""; Info := ""; GasWanted := 0;
     GasUsed := 0; Events := []; Codespace := "" |}.
End CheckTxResponse.

Module PrepareProposalRequest.
Record t := { MaxTxBytes : Z; Txs : list bytes; Height : Z; Time : Z }.
End PrepareProposalRequest.

Module PrepareProposalResponse.
Record t := { Txs : list bytes }.
End PrepareProposalResponse.

Module ProcessProposalRequest.
Record t := { Txs : list bytes; Hash : bytes; Height : Z; Time : Z;
              ProposerAddress : bytes }.
End ProcessProposalRequest.

Inductive ProcessProposalStatus : Type :=
| PROCESS_PROPOSAL_STATUS_UNKNOWN
| PROCESS_PROPOSAL_STATUS_ACCEPT
| PROCESS_PROPOSAL_STATUS_REJECT.

Module ProcessProposalResponse.
Record t := { Status : ProcessProposalStatus }.
End ProcessProposalResponse.

Module FinalizeBlockRequest.
Record t := { Txs : list bytes; Hash : bytes; Height : Z; Time : Z;
              ProposerAddress : bytes }.
End FinalizeBlockRequest.

Module ExecTxResult.
Record t := { Code : Z; Data : option bytes; Log : string;
              Info : string; GasWanted : Z; GasUsed : Z;
              Events : list Event }.
End ExecTxResult.

Module FinalizeBlockResponse.
(** [TxResults] is a slice of pointers: [None] is a [nil] entry.
    [ValidatorUpdates] and [ConsensusParamUpdates] are returned
    empty; their element types play no part here. *)
Record t := { Events : list Event;
              TxResults : list (option ExecTxResult.t);
              ValidatorUpdates : list unit;
              ConsensusParamUpdates : option unit;
              AppHash : option bytes }.
End FinalizeBlockResponse.

Module CommitRequest.
Record t := { }.
Definition zero : t := Build_t.
End CommitRequest.

Module CommitResponse.
Record t := { RetainHeight : Z }.
Definition zero : t := {| RetainHeight := 0 |}.
End CommitResponse.

Module InfoRequest.
Record t := { Version : string }.
End InfoRequest.

Module InfoResponse.
Record t := { Data : string; Version : string; AppVersion : Z;
              LastBlockHeight : Z; LastBlockAppHash : option bytes }.
End InfoResponse.

Module QueryRequest.
Record t := { Data : bytes; Path : string; Height : Z; Prove : bool }.
End QueryRequest.

Module QueryResponse.
Record t := { Code : Z; Log : string; Key : option bytes;
              Value : option bytes; Height : Z }.
Definition zero : t :=
  {| Code := 0; Log := ""; Key := None; Value := None; Height := 0 |}.
End QueryResponse.

End abci.
Import abci.

(** ** [app/run.go]: the hooks into the application *)

Module app.

Definition ProcessTX (req : CheckTxRequest.t) : result CheckTxResponse.t :=
  Ok CheckTxResponse.zero.

Definition CommitData (req : CommitRequest.t) : result CommitResponse.t :=
  Ok CommitResponse.zero.

Definition QueryData (req : QueryRequest.t) : result QueryResponse.t :=
  Ok QueryResponse.zero.

End app.

(** ** [comet/run.go] and [comet/app.go] *)

Module comet.

Definition key_lastAppHash : bytes := of_string "lastAppHash".
Definition key_lastHeight : bytes := of_string "lastHeight".

(** [len(s)] for a slice that may be [nil]. *)
Definition len_nilable (s : option bytes) : Z :=
  match s with
  | None => 0
  | Some b => len b
  end.

Definition GetLastBlockHashAndHeight (db : Dbm.DB) : option bytes * Z :=
  let lastHash := Dbm.Get db key_lastAppHash in
  let heightBytes := Dbm.Get db key_lastHeight in
  let height :=
    if len_nilable heightBytes >? 0
    then byte_to_Z (hd Byte.x00 (default [] heightBytes))
    else 0 in
  (lastHash, height).

Record CometApp := {
  db : Dbm.DB;
  lastHash : option bytes;
  lastHeight : Z
}.

Definition NewCometApp (db : Dbm.DB) : CometApp :=
  let '(lastBlockHash, height) := GetLastBlockHashAndHeight db in
  {| db := db; lastHash := lastBlockHash; lastHeight := height |}.

(** A handler is a method on [*CometApp]: it returns its Go result
    pair and the application as the call leaves it. *)
Definition Handler (A : Type) : Type := CometApp -> result A * CometApp.

(** *** InitChain

    [InitChain], the vote-extension handlers and the snapshot handlers
    read nothing of their request and return an empty response: both
    are [unit] here. *)

Definition InitChain (req : unit) : Handler unit :=
  fun cometApp => (Ok tt, cometApp).

(** *** Mempool and proposal logic *)

Definition CheckTx (req : CheckTxRequest.t) : Handler CheckTxResponse.t :=
  fun cometApp =>
    match app.ProcessTX req with
    | Err err => (Err err, cometApp)
    | Ok _ => (Ok CheckTxResponse.zero, cometApp)
    end.

(** The loop of [PrepareProposal]; leaving the recursion is [break]. *)
Fixpoint prepare_loop (maxTxBytes : Z) (txs : list bytes)
    (out : list bytes) (sz : Z) : list bytes :=
  match txs with
  | [] => out
  | tx :: rest =>
      if wrap64 (sz + len tx) >? maxTxBytes then out
      else prepare_loop maxTxBytes rest (out ++ [tx]) (wrap64 (sz + len tx))
  end.

Definition PrepareProposal (req : PrepareProposalRequest.t)
    : Handler PrepareProposalResponse.t :=
  fun cometApp =>
    let out := prepare_loop (PrepareProposalRequest.MaxTxBytes req)
                 (PrepareProposalRequest.Txs req) [] 0 in
    (Ok {| PrepareProposalResponse.Txs := out |}, cometApp).

(** The loop of [ProcessProposal]: [sz += int64(len(tx))]. *)
Definition sum_sizes (txs : list bytes) : Z :=
  fold_left (fun sz tx => wrap64 (sz + len tx)) txs 0.

Definition ProcessProposal (req : ProcessProposalRequest.t)
    : Handler ProcessProposalResponse.t :=
  fun cometApp =>
    let sz := sum_sizes (ProcessProposalRequest.Txs req) in
    let maxTxsBytes := 1000000 in
    if (maxTxsBytes >? 0) && (sz >? maxTxsBytes) then
      (Ok {| ProcessProposalResponse.Status := PROCESS_PROPOSAL_STATUS_REJECT |},
       cometApp)
    else
      (Ok {| ProcessProposalResponse.Status := PROCESS_PROPOSAL_STATUS_ACCEPT |},
       cometApp).

(** *** Consensus *)

(** [flush_ok] is the storage engine's answer to [b.WriteSync()], which
    the program does not control; [defer b.Close()] releases the batch
    on every path and leaves the store as it is. *)
Definition Commit (flush_ok : bool) (req : CommitRequest.t)
    : Handler CommitResponse.t :=
  fun cometApp =>
    let written :=
      let* _ := app.CommitData req in
      let b := Dbm.NewBatch in
      let* b := Dbm.Set_ b key_lastAppHash (lastHash cometApp) in
      let* b := Dbm.Set_ b key_lastHeight
                  (Some [byte_of_Z (lastHeight cometApp)]) in
      Dbm.WriteSync flush_ok b (db cometApp) in
    match written with
    | Err err => (Err err, cometApp)
    | Ok db' =>
        (Ok CommitResponse.zero,
         {| db := db'; lastHash := lastHash cometApp;
            lastHeight := lastHeight cometApp |})
    end.

(** The digest of [FinalizeBlock]: the height as eight big-endian
    bytes, then every transaction in order. *)
Definition block_hash (height : Z) (txs : list bytes) : bytes :=
  let h := SHA256.New in
  let hb := PutUint64 (to_uint64 height) in
  let h := SHA256.Write h hb in
  let h := fold_left SHA256.Write txs h in
  SHA256.Sum h.
Arguments block_hash : simpl never.

Definition ok_result : ExecTxResult.t :=
  {| ExecTxResult.Code := 0; ExecTxResult.Data := None;
     ExecTxResult.Log := ""; ExecTxResult.Info := "";
     ExecTxResult.GasWanted := 0; ExecTxResult.GasUsed := 0;
     ExecTxResult.Events := [] |}.

(** The second loop of [FinalizeBlock]: [results[i] = &ExecTxResult{...}]
    for the [i]-th transaction. *)
Fixpoint fill_results (i : nat) (txs : list bytes)
    (results : list (option ExecTxResult.t)) : list (option ExecTxResult.t) :=
  match txs with
  | [] => results
  | tx :: rest => fill_results (S i) rest (<[i := Some ok_result]> results)
  end.

Definition FinalizeBlock (req : FinalizeBlockRequest.t)
    : Handler FinalizeBlockResponse.t :=
  fun cometApp =>
    let txs := FinalizeBlockRequest.Txs req in
    let height := FinalizeBlockRequest.Height req in
    let hash := Some (block_hash height txs) in
    let results := fill_results 0 txs (repeat None (length txs)) in
    (Ok {| FinalizeBlockResponse.Events := [];
           FinalizeBlockResponse.TxResults := results;
           FinalizeBlockResponse.ValidatorUpdates := [];
           FinalizeBlockResponse.ConsensusParamUpdates := Some tt;
           FinalizeBlockResponse.AppHash := hash |},
     {| db := db cometApp; lastHash := hash; lastHeight := height |}).

Definition ExtendVote (req : unit) : Handler unit :=
  fun cometApp => (Ok tt, cometApp).

Definition VerifyVoteExtension (req : unit) : Handler unit :=
  fun cometApp => (Ok tt, cometApp).

(** *** Info and queries *)

Definition Info (req : InfoRequest.t) : Handler InfoResponse.t :=
  fun cometApp =>
    (Ok {| InfoResponse.Data := "mycometApp";
           InfoResponse.Version := "v0.1.0";
           InfoResponse.AppVersion := 1;
           InfoResponse.LastBlockHeight := lastHeight cometApp;
           InfoResponse.LastBlockAppHash := lastHash cometApp |},
     cometApp).

Definition Query (req : QueryRequest.t) : Handler QueryResponse.t :=
  fun cometApp =>
    match app.QueryData req with
    | Err err => (Err err, cometApp)
    | Ok _ => (Ok QueryResponse.zero, cometApp)
    end.

Definition ListSnapshots (req : unit) : Handler unit :=
  fun cometApp => (Ok tt, cometApp).
Definition OfferSnapshot (req : unit) : Handler unit :=
  fun cometApp => (Ok tt, cometApp).
Definition LoadSnapshotChunk (req : unit) : Handler unit :=
  fun cometApp => (Ok tt, cometApp).
Definition ApplySnapshotChunk (req : unit) : Handler unit :=
  fun cometApp => (Ok tt, cometApp).

End comet.
Import comet.

(** ** The consensus engine's side: calls in sequence, and restarts *)

Module engine.

Inductive Call : Type :=
| CallInitChain
| CallCheckTx (req : CheckTxRequest.t)
| CallPrepareProposal (req : PrepareProposalRequest.t)
| CallProcessProposal (req : ProcessProposalRequest.t)
| CallFinalizeBlock (req : FinalizeBlockRequest.t)
| CallCommit (flush_ok : bool) (req : CommitRequest.t)
| CallExtendVote
| CallVerifyVoteExtension
| CallInfo (req : InfoRequest.t)
| CallQuery (req : QueryRequest.t)
| CallListSnapshots
| CallOfferSnapshot
| CallLoadSnapshotChunk
| CallApplySnapshotChunk.

(** The application after one call; the response goes to the engine. *)
Definition call (c : Call) (cometApp : CometApp) : CometApp :=
  match c with
  | CallInitChain => snd (InitChain tt cometApp)
  | CallCheckTx req => snd (CheckTx req cometApp)
  | CallPrepareProposal req => snd (PrepareProposal req cometApp)
  | CallProcessProposal req => snd (ProcessProposal req cometApp)
  | CallFinalizeBlock req => snd (FinalizeBlock req cometApp)
  | CallCommit flush_ok req => snd (Commit flush_ok req cometApp)
  | CallExtendVote => snd (ExtendVote tt cometApp)
  | CallVerifyVoteExtension => snd (VerifyVoteExtension tt cometApp)
  | CallInfo req => snd (Info req cometApp)
  | CallQuery req => snd (Query req cometApp)
  | CallListSnapshots => snd (ListSnapshots tt cometApp)
  | CallOfferSnapshot => snd (OfferSnapshot tt cometApp)
  | CallLoadSnapshotChunk => snd (LoadSnapshotChunk tt cometApp)
  | CallApplySnapshotChunk => snd (ApplySnapshotChunk tt cometApp)
  end.

Definition run (calls : list Call) (cometApp : CometApp) : CometApp :=
  fold_left (fun a c => call c a) calls cometApp.

(** The process stops and [Run] builds the application again on the
    same store: [app := NewCometApp(appDB)]. *)
Definition restart (cometApp : CometApp) : CometApp :=
  NewCometApp (db cometApp).

End engine.
Import engine.

(** ** Vocabulary of the specification *)

(** The total serialized size of a transaction list, as a number. *)
Definition total_size (txs : list bytes) : Z :=
  fold_right (fun tx n => len tx + n) 0 txs.

Definition reject : ProcessProposalResponse.t :=
  {| ProcessProposalResponse.Status := PROCESS_PROPOSAL_STATUS_REJECT |}.
Definition accept : ProcessProposalResponse.t :=
  {| ProcessProposalResponse.Status := PROCESS_PROPOSAL_STATUS_ACCEPT |}.

(** A transaction of [n] bytes. *)
Definition tx_of_size (n : nat) : bytes := repeat Byte.x61 n.

Definition genesis : CometApp := NewCometApp ∅.

(** A block of two transactions at the given height. *)
Definition block (height : Z) : FinalizeBlockRequest.t :=
  {| FinalizeBlockRequest.Txs := [of_string "a"; of_string "b"];
     FinalizeBlockRequest.Hash := [];
     FinalizeBlockRequest.Height := height;
     FinalizeBlockRequest.Time := 0;
     FinalizeBlockRequest.ProposerAddress := [] |}.

Definition hex_of (b : bytes) : list Z := map byte_to_Z b.

(** [binary.BigEndian.Uint64(b)]: the number a big-endian byte string
    stands for. *)
Definition be_value (b : bytes) : Z :=
  fold_left (fun acc x => acc * 256 + byte_to_Z x) b 0.

(** The bytes [FinalizeBlock] writes into the digest, in order. *)
Definition preimage (height : Z) (txs : list bytes) : bytes :=
  PutUint64 (to_uint64 height) ++ concat txs.

(** Executing and committing each block in turn, every flush
    succeeding. *)
Definition cycle (reqs : list FinalizeBlockRequest.t) : list Call :=
  flat_map (fun r => [CallFinalizeBlock r; CallCommit true CommitRequest.zero])
    reqs.

(** The AppHash values a sequence of calls can leave behind: the one
    cached at the start, or the digest of a block executed in it. *)
Definition hash_from (calls : list Call) (a : CometApp) (v : option bytes) : Prop :=
  v = lastHash a \/
  exists req : FinalizeBlockRequest.t,
    In (CallFinalizeBlock req) calls /\
    v = Some (block_hash (FinalizeBlockRequest.Height req)
                (FinalizeBlockRequest.Txs req)).

(** The calls other than [FinalizeBlock] and [Commit]. *)
Definition read_only (c : Call) : bool :=
  match c with
  | CallFinalizeBlock _ | CallCommit _ _ => false
  | _ => true
  end.

(** ** Checks of the library models on known values *)

Example sha256_empty : hex_of (SHA256.sum []) =
  [0xe3; 0xb0; 0xc4; 0x42; 0x98; 0xfc; 0x1c; 0x14;
   0x9a; 0xfb; 0xf4; 0xc8; 0x99; 0x6f; 0xb9; 0x24;
   0x27; 0xae; 0x41; 0xe4; 0x64; 0x9b; 0x93; 0x4c;
   0xa4; 0x95; 0x99; 0x1b; 0x78; 0x52; 0xb8; 0x55].
Proof. vm_compute. reflexivity. Qed.

Example sha256_abc : hex_of (SHA256.sum (of_string "abc")) =
  [0xba; 0x78; 0x16; 0xbf; 0x8f; 0x01; 0xcf; 0xea;
   0x41; 0x41; 0x40; 0xde; 0x5d; 0xae; 0x22; 0x23;
   0xb0; 0x03; 0x61; 0xa3; 0x96; 0x17; 0x7a; 0x9c;
   0xb4; 0x10; 0xff; 0x61; 0xf2; 0x00; 0x15; 0xad].
Proof. vm_compute. reflexivity. Qed.

Example sha256_constants :
  length SHA256.K = 64%nat /\
  nth 0 SHA256.K 0 = 0x428a2f98 /\ nth 63 SHA256.K 0 = 0xc67178f2 /\
  nth 0 SHA256.H0 0 = 0x6a09e667 /\ nth 7 SHA256.H0 0 = 0x5be0cd19.
Proof. repeat split. Qed.

Example PutUint64_258 : hex_of (PutUint64 258) = [0; 0; 0; 0; 0; 0; 1; 2].
Proof. reflexivity. Qed.

(** ** Arithmetic of [int64] and of sizes *)

Lemma wrap64_small (z : Z) :
  min_int64 <= z <= max_int64 -> wrap64 z = z.
Proof.
  unfold wrap64, min_int64, max_int64. intros Hz.
  rewrite Z.mod_small by lia. lia.
Qed.

Lemma len_nonneg (b : bytes) : 0 <= len b.
Proof. unfold len. lia. Qed.

Lemma total_size_nonneg (txs : list bytes) : 0 <= total_size txs.
Proof.
  induction txs as [|tx txs IH]; simpl; [lia|].
  pose proof (len_nonneg tx). lia.
Qed.

Lemma total_size_app (l1 l2 : list bytes) :
  total_size (l1 ++ l2) = total_size l1 + total_size l2.
Proof.
  induction l1 as [|tx l1 IH]; simpl; [reflexivity|]. rewrite IH. lia.
Qed.

(** While nothing overflows, the running [sz] of [ProcessProposal] is
    the sum of the sizes seen so far. *)
Lemma sum_sizes_from (txs : list bytes) (acc : Z) :
  0 <= acc -> acc + total_size txs <= max_int64 ->
  fold_left (fun sz tx => wrap64 (sz + len tx)) txs acc = acc + total_size txs.
Proof.
  revert acc. induction txs as [|tx txs IH]; simpl; intros acc Hacc Hmax.
  - lia.
  - pose proof (len_nonneg tx) as Hl.
    pose proof (total_size_nonneg txs) as Ht.
    rewrite wrap64_small by (unfold min_int64; lia).
    rewrite IH by lia. lia.
Qed.

Lemma sum_sizes_total (txs : list bytes) :
  total_size txs <= max_int64 -> sum_sizes txs = total_size txs.
Proof.
  intros H. unfold sum_sizes. rewrite sum_sizes_from; lia.
Qed.

Lemma total_size_tx_of_size (n : nat) : len (tx_of_size n) = Z.of_nat n.
Proof. unfold len, tx_of_size. by rewrite repeat_length. Qed.

(** ** The proposal loops *)

(** [prepare_loop] extends [out] by a prefix of the remaining candidates
    and stops at the first one that would take the total over budget. *)
Lemma prepare_loop_spec (maxTxBytes : Z) (txs out : list bytes) (sz : Z) :
  0 <= sz <= maxTxBytes ->
  sz + total_size txs <= max_int64 ->
  exists taken rest,
    txs = taken ++ rest /\
    prepare_loop maxTxBytes txs out sz = out ++ taken /\
    sz + total_size taken <= maxTxBytes /\
    match rest with
    | [] => True
    | tx :: _ => maxTxBytes < sz + total_size taken + len tx
    end.
Proof.
  revert out sz. induction txs as [|tx txs IH]; intros out sz Hsz Hmax.
  - exists [], []. simpl. rewrite app_nil_r. repeat split; lia.
  - simpl in *.
    pose proof (len_nonneg tx) as Hl.
    pose proof (total_size_nonneg txs) as Ht.
    rewrite wrap64_small by (unfold min_int64; lia).
    destruct (Z.gtb_spec (sz + len tx) maxTxBytes) as [Hgt|Hle].
    + exists [], (tx :: txs). simpl. rewrite app_nil_r.
      repeat split; lia.
    + destruct (IH (out ++ [tx]) (sz + len tx)) as (taken & rest & -> & Hrun & Hb & Hstop);
        [lia | lia |].
      exists (tx :: taken), rest. simpl.
      rewrite Hrun, <- app_assoc. simpl.
      repeat split; [lia|].
      destruct rest; [exact I | lia].
Qed.

(** ** The result slice of [FinalizeBlock] *)

Lemma fill_results_length (txs : list bytes) (i : nat)
    (results : list (option ExecTxResult.t)) :
  length (fill_results i txs results) = length results.
Proof.
  revert i results. induction txs as [|tx txs IH]; intros i results; simpl.
  - reflexivity.
  - rewrite IH. apply length_insert.
Qed.

(** Entries below the running index are left as they are. *)
Lemma fill_results_below (txs : list bytes) (i j : nat)
    (results : list (option ExecTxResult.t)) :
  (j < i)%nat -> fill_results i txs results !! j = results !! j.
Proof.
  revert i results. induction txs as [|tx txs IH]; intros i results Hj; simpl.
  - reflexivity.
  - rewrite IH by lia. apply list_lookup_insert_ne. lia.
Qed.

(** Entry [i + k] is written when the loop reaches the [k]-th of the
    remaining transactions. *)
Lemma fill_results_at (txs : list bytes) (i k : nat)
    (results : list (option ExecTxResult.t)) :
  (k < length txs)%nat -> (i + k < length results)%nat ->
  fill_results i txs results !! (i + k)%nat = Some (Some ok_result).
Proof.
  revert i k results. induction txs as [|tx txs IH]; intros i k results Hk Hlen;
    simpl in *; [lia|].
  destruct k as [|k].
  - rewrite Nat.add_0_r in *. rewrite fill_results_below by lia.
    by apply list_lookup_insert_eq.
  - replace (i + S k)%nat with (S i + k)%nat by lia.
    apply IH; [lia|]. rewrite length_insert. lia.
Qed.

(** ** The digest of [FinalizeBlock] *)

Lemma fold_Write_concat (txs : list bytes) (h : bytes) :
  fold_left SHA256.Write txs h = h ++ concat txs.
Proof.
  revert h. induction txs as [|tx txs IH]; intros h; simpl.
  - by rewrite app_nil_r.
  - rewrite IH. unfold SHA256.Write. by rewrite <- app_assoc.
Qed.

Lemma block_hash_eq (height : Z) (txs : list bytes) :
  block_hash height txs =
  SHA256.sum (PutUint64 (to_uint64 height) ++ concat txs).
Proof.
  unfold block_hash, SHA256.Sum. rewrite fold_Write_concat. reflexivity.
Qed.

(** * The claims *)

(** ** Proposal validation *)

(** C1, as the specification states it, fails: three transactions of
    300 bytes add up to 900 bytes, more than a budget of 500, and
    [ProcessProposal] accepts them. *)
Lemma ProcessProposal_accepts_900_over_500 :
  let txs := [tx_of_size 300; tx_of_size 300; tx_of_size 300] in
  let req := {| ProcessProposalRequest.Txs := txs;
                ProcessProposalRequest.Hash := [];
                ProcessProposalRequest.Height := 1;
                ProcessProposalRequest.Time := 0;
                ProcessProposalRequest.ProposerAddress := [] |} in
  let budget := 500 in
  total_size txs = 900 /\
  budget < total_size txs /\
  fst (ProcessProposal req genesis) = Ok accept /\
  fst (ProcessProposal req genesis) <> Ok reject.
Proof.
  cbv zeta. repeat split; try (vm_compute; reflexivity).
  vm_compute. discriminate.
Qed.

(** C1, amended: [ProcessProposal] re-derives the total size of the
    proposed list and rejects exactly when it exceeds the fixed budget of
    1,000,000 bytes written in the handler; no budget is read from the
    request, and the application is left as it was. *)
Theorem ProcessProposal_fixed_budget :
  forall (req : ProcessProposalRequest.t) (a : CometApp),
    total_size (ProcessProposalRequest.Txs req) <= max_int64 ->
    ProcessProposal req a =
      (Ok (if total_size (ProcessProposalRequest.Txs req) >? 1000000
           then reject else accept), a).
Proof.
  intros req a Hmax. unfold ProcessProposal.
  rewrite sum_sizes_total by exact Hmax. simpl.
  destruct (total_size (ProcessProposalRequest.Txs req) >? 1000000); reflexivity.
Qed.

Lemma ProcessProposal_fixed_budget_witness :
  let req := {| ProcessProposalRequest.Txs := [tx_of_size 300; tx_of_size 600];
                ProcessProposalRequest.Hash := [];
                ProcessProposalRequest.Height := 1;
                ProcessProposalRequest.Time := 0;
                ProcessProposalRequest.ProposerAddress := [] |} in
  total_size (ProcessProposalRequest.Txs req) <= max_int64 /\
  ProcessProposal req genesis =
    (Ok (if total_size (ProcessProposalRequest.Txs req) >? 1000000
         then reject else accept), genesis).
Proof.
  cbv zeta. split.
  - vm_compute. discriminate.
  - apply ProcessProposal_fixed_budget. vm_compute. discriminate.
Defined.

(** ** Proposal construction *)

(** C7: for a budget [B >= 0], [PrepareProposal] returns a prefix of the
    candidates, in their order, whose total size is at most [B]; for
    candidates of 300, 300 and 300 bytes and a budget of 500 it returns
    the first one alone. *)
Theorem PrepareProposal_prefix_within_budget :
  (forall (req : PrepareProposalRequest.t) (a : CometApp),
     0 <= PrepareProposalRequest.MaxTxBytes req ->
     total_size (PrepareProposalRequest.Txs req) <= max_int64 ->
     exists out rest,
       PrepareProposal req a = (Ok {| PrepareProposalResponse.Txs := out |}, a) /\
       PrepareProposalRequest.Txs req = out ++ rest /\
       total_size out <= PrepareProposalRequest.MaxTxBytes req)
  /\
  (forall (t1 t2 t3 : bytes) (height time : Z) (a : CometApp),
     len t1 = 300 -> len t2 = 300 -> len t3 = 300 ->
     PrepareProposal {| PrepareProposalRequest.MaxTxBytes := 500;
                        PrepareProposalRequest.Txs := [t1; t2; t3];
                        PrepareProposalRequest.Height := height;
                        PrepareProposalRequest.Time := time |} a
     = (Ok {| PrepareProposalResponse.Txs := [t1] |}, a)).
Proof.
  split.
  - intros req a HB Hmax. unfold PrepareProposal.
    destruct (prepare_loop_spec (PrepareProposalRequest.MaxTxBytes req)
                (PrepareProposalRequest.Txs req) [] 0)
      as (taken & rest & Htxs & Hrun & Hb & _); [lia | lia |].
    exists taken, rest. rewrite Hrun. simpl. repeat split; [exact Htxs | lia].
  - intros t1 t2 t3 height time a H1 H2 H3.
    unfold PrepareProposal. simpl. rewrite H1, H2. reflexivity.
Qed.

Lemma PrepareProposal_prefix_within_budget_witness :
  let req := {| PrepareProposalRequest.MaxTxBytes := 700;
                PrepareProposalRequest.Txs :=
                  [tx_of_size 300; tx_of_size 300; tx_of_size 300];
                PrepareProposalRequest.Height := 1;
                PrepareProposalRequest.Time := 0 |} in
  0 <= PrepareProposalRequest.MaxTxBytes req /\
  total_size (PrepareProposalRequest.Txs req) <= max_int64 /\
  exists out rest,
    PrepareProposal req genesis
      = (Ok {| PrepareProposalResponse.Txs := out |}, genesis) /\
    PrepareProposalRequest.Txs req = out ++ rest /\
    total_size out <= PrepareProposalRequest.MaxTxBytes req.
Proof.
  cbv zeta. split; [|split].
  - vm_compute. discriminate.
  - vm_compute. discriminate.
  - apply (proj1 PrepareProposal_prefix_within_budget).
    + vm_compute. discriminate.
    + vm_compute. discriminate.
Defined.

(** ** Admission check *)

(** C9: [CheckTx] accepts every transaction: whatever the request, it
    returns no error and a response whose code is 0 (OK), and leaves the
    application as it was. *)
Theorem CheckTx_always_accepts :
  forall (req : CheckTxRequest.t) (a : CometApp),
    exists resp : CheckTxResponse.t,
      CheckTx req a = (Ok resp, a) /\ CheckTxResponse.Code resp = 0.
Proof.
  intros req a. exists CheckTxResponse.zero. split; reflexivity.
Qed.

(** ** Block execution *)

(** C6: [FinalizeBlock] never fails, and its [TxResults] has one entry
    per transaction of the request: the same length, and at every index
    of a transaction an (OK) result, none left [nil]. *)
Theorem FinalizeBlock_one_result_per_tx :
  forall (req : FinalizeBlockRequest.t) (a : CometApp),
    exists resp : FinalizeBlockResponse.t,
      fst (FinalizeBlock req a) = Ok resp /\
      length (FinalizeBlockResponse.TxResults resp)
        = length (FinalizeBlockRequest.Txs req) /\
      forall (i : nat) (tx : bytes),
        FinalizeBlockRequest.Txs req !! i = Some tx ->
        FinalizeBlockResponse.TxResults resp !! i = Some (Some ok_result).
Proof.
  intros req a. eexists. split; [reflexivity|]. simpl. split.
  - rewrite fill_results_length. apply repeat_length.
  - intros i tx Hi. apply lookup_lt_Some in Hi.
    apply (fill_results_at _ 0 i); [exact Hi|].
    rewrite repeat_length. simpl. exact Hi.
Qed.

Lemma FinalizeBlock_one_result_per_tx_witness :
  let req := {| FinalizeBlockRequest.Txs := [of_string "a"; of_string "b"];
                FinalizeBlockRequest.Hash := [];
                FinalizeBlockRequest.Height := 1;
                FinalizeBlockRequest.Time := 0;
                FinalizeBlockRequest.ProposerAddress := [] |} in
  FinalizeBlockRequest.Txs req !! 1%nat = Some (of_string "b") /\
  exists resp : FinalizeBlockResponse.t,
    fst (FinalizeBlock req genesis) = Ok resp /\
    length (FinalizeBlockResponse.TxResults resp) = 2%nat /\
    FinalizeBlockResponse.TxResults resp !! 1%nat = Some (Some ok_result).
Proof.
  cbv zeta. split; [reflexivity|].
  destruct (FinalizeBlock_one_result_per_tx
              {| FinalizeBlockRequest.Txs := [of_string "a"; of_string "b"];
                 FinalizeBlockRequest.Hash := [];
                 FinalizeBlockRequest.Height := 1;
                 FinalizeBlockRequest.Time := 0;
                 FinalizeBlockRequest.ProposerAddress := [] |} genesis)
    as (resp & Hresp & Hlen & Hall).
  exists resp. split; [exact Hresp|]. split; [exact Hlen|].
  apply (Hall 1%nat (of_string "b")). reflexivity.
Defined.

(** C8: the AppHash computed by [FinalizeBlock] is a function of the
    height and the ordered transaction bytes of the request alone: two
    executions of requests with the same height and transactions, from
    any two application states and whatever the other request fields
    (block time, block hash, proposer), return the same digest and
    retain the same digest, namely SHA-256 of the height as eight
    big-endian bytes followed by the transactions in order. *)
Theorem FinalizeBlock_AppHash_deterministic :
  forall (req1 req2 : FinalizeBlockRequest.t) (a1 a2 : CometApp),
    FinalizeBlockRequest.Height req1 = FinalizeBlockRequest.Height req2 ->
    FinalizeBlockRequest.Txs req1 = FinalizeBlockRequest.Txs req2 ->
    exists (resp1 resp2 : FinalizeBlockResponse.t) (digest : bytes),
      fst (FinalizeBlock req1 a1) = Ok resp1 /\
      fst (FinalizeBlock req2 a2) = Ok resp2 /\
      digest = SHA256.sum
                 (PutUint64 (to_uint64 (FinalizeBlockRequest.Height req1))
                  ++ concat (FinalizeBlockRequest.Txs req1)) /\
      FinalizeBlockResponse.AppHash resp1 = Some digest /\
      FinalizeBlockResponse.AppHash resp2 = Some digest /\
      lastHash (snd (FinalizeBlock req1 a1)) = Some digest /\
      lastHash (snd (FinalizeBlock req2 a2)) = Some digest.
Proof.
  intros req1 req2 a1 a2 Hh Htxs.
  do 3 eexists. split; [reflexivity|]. split; [reflexivity|].
  split; [reflexivity|]. simpl.
  rewrite <- Hh, <- Htxs, block_hash_eq. repeat split.
Qed.

Lemma FinalizeBlock_AppHash_deterministic_witness :
  let req1 := {| FinalizeBlockRequest.Txs := [of_string "a"; of_string "b"];
                 FinalizeBlockRequest.Hash := [];
                 FinalizeBlockRequest.Height := 1;
                 FinalizeBlockRequest.Time := 1000;
                 FinalizeBlockRequest.ProposerAddress := of_string "p" |} in
  let req2 := {| FinalizeBlockRequest.Txs := [of_string "a"; of_string "b"];
                 FinalizeBlockRequest.Hash := of_string "h";
                 FinalizeBlockRequest.Height := 1;
                 FinalizeBlockRequest.Time := 2000;
                 FinalizeBlockRequest.ProposerAddress := of_string "q" |} in
  let a2 := snd (FinalizeBlock req1 genesis) in
  FinalizeBlockRequest.Height req1 = FinalizeBlockRequest.Height req2 /\
  FinalizeBlockRequest.Txs req1 = FinalizeBlockRequest.Txs req2 /\
  exists (resp1 resp2 : FinalizeBlockResponse.t),
    fst (FinalizeBlock req1 genesis) = Ok resp1 /\
    fst (FinalizeBlock req2 a2) = Ok resp2 /\
    FinalizeBlockResponse.AppHash resp1 = FinalizeBlockResponse.AppHash resp2.
Proof.
  cbv zeta. split; [reflexivity|]. split; [reflexivity|].
  edestruct (FinalizeBlock_AppHash_deterministic
              {| FinalizeBlockRequest.Txs := [of_string "a"; of_string "b"];
                 FinalizeBlockRequest.Hash := [];
                 FinalizeBlockRequest.Height := 1;
                 FinalizeBlockRequest.Time := 1000;
                 FinalizeBlockRequest.ProposerAddress := of_string "p" |}
              {| FinalizeBlockRequest.Txs := [of_string "a"; of_string "b"];
                 FinalizeBlockRequest.Hash := of_string "h";
                 FinalizeBlockRequest.Height := 1;
                 FinalizeBlockRequest.Time := 2000;
                 FinalizeBlockRequest.ProposerAddress := of_string "q" |}
              genesis)
    as (resp1 & resp2 & digest & H1 & H2 & _ & Hd1 & Hd2 & _);
    [reflexivity | reflexivity |].
  exists resp1, resp2. split; [exact H1|]. split; [exact H2|].
  rewrite Hd1, Hd2. reflexivity.
Defined.

(** ** The reserved entries and [Commit] *)

Lemma byte_to_of_Z (z : Z) : byte_to_Z (byte_of_Z z) = z mod 256.
Proof.
  unfold byte_to_Z, byte_of_Z.
  pose proof (Z.mod_pos_bound z 256 ltac:(lia)) as Hz.
  destruct (Byte.of_N (Z.to_N (z mod 256))) as [b|] eqn:E.
  - apply Byte.to_of_N in E. rewrite E. apply Z2N.id. lia.
  - apply Byte.of_N_None_iff in E. lia.
Qed.

Lemma reserved_keys_distinct : key_lastAppHash <> key_lastHeight.
Proof. discriminate. Qed.

Lemma Set_ok (b : Dbm.Batch) (key v : bytes) :
  key <> [] -> Dbm.Set_ b key (Some v) = Ok (b ++ [(key, v)]).
Proof. intros Hk. destruct key; [congruence | reflexivity]. Qed.

(** What the three outcomes of [Commit] are. *)
Lemma Commit_nil_hash (flush_ok : bool) (req : CommitRequest.t) (a : CometApp) :
  lastHash a = None -> Commit flush_ok req a = (Err errValueNil, a).
Proof. intros H. unfold Commit. rewrite H. reflexivity. Qed.

Lemma Commit_flush_failed (req : CommitRequest.t) (a : CometApp) (h : bytes) :
  lastHash a = Some h -> Commit false req a = (Err errFlush, a).
Proof. intros H. unfold Commit. rewrite H. reflexivity. Qed.

Lemma Commit_flushed (req : CommitRequest.t) (a : CometApp) (h : bytes) :
  lastHash a = Some h ->
  Commit true req a =
    (Ok CommitResponse.zero,
     {| db := <[key_lastHeight := [byte_of_Z (lastHeight a)]]>
                (<[key_lastAppHash := h]> (db a));
        lastHash := Some h;
        lastHeight := lastHeight a |}).
Proof. intros H. unfold Commit. rewrite H. reflexivity. Qed.

Lemma Commit_frame (flush_ok : bool) (req : CommitRequest.t) (a : CometApp)
    (k : bytes) :
  k <> key_lastAppHash -> k <> key_lastHeight ->
  db (snd (Commit flush_ok req a)) !! k = db a !! k.
Proof.
  intros Hk1 Hk2. destruct (lastHash a) as [h|] eqn:Hh.
  - destruct flush_ok.
    + rewrite (Commit_flushed _ _ _ Hh). simpl.
      rewrite lookup_insert_ne by congruence.
      by rewrite lookup_insert_ne by congruence.
    + by rewrite (Commit_flush_failed _ _ _ Hh).
  - by rewrite (Commit_nil_hash _ _ _ Hh).
Qed.

(** Every handler but [Commit] leaves the store exactly as it was. *)
Lemma call_db_unchanged (c : Call) (a : CometApp) :
  (forall flush_ok req, c <> CallCommit flush_ok req) ->
  db (call c a) = db a.
Proof.
  intros Hc. destruct c; simpl; try reflexivity.
  - unfold ProcessProposal.
    destruct ((1000000 >? 0) && (sum_sizes (ProcessProposalRequest.Txs req) >? 1000000));
      reflexivity.
  - exfalso. by eapply Hc.
Qed.

Lemma call_frame (c : Call) (a : CometApp) (k : bytes) :
  k <> key_lastAppHash -> k <> key_lastHeight ->
  db (call c a) !! k = db a !! k.
Proof.
  intros Hk1 Hk2. destruct c;
    try (rewrite call_db_unchanged; [reflexivity | discriminate]).
  simpl. by apply Commit_frame.
Qed.

(** What start-up reads back from a store that a [Commit] has flushed. *)
Lemma GetLastBlockHashAndHeight_flushed (d : Dbm.DB) (h : bytes) (height : Z) :
  GetLastBlockHashAndHeight
    (<[key_lastHeight := [byte_of_Z height]]> (<[key_lastAppHash := h]> d))
  = (Some h, height mod 256).
Proof.
  unfold GetLastBlockHashAndHeight, Dbm.Get.
  rewrite lookup_insert_eq.
  rewrite lookup_insert_ne by (apply not_eq_sym, reserved_keys_distinct).
  rewrite lookup_insert_eq. simpl.
  by rewrite byte_to_of_Z.
Qed.

(** [FinalizeBlock], a flushed [Commit], a restart, then [Info]: the
    digest comes back whole, the height through one byte. *)
Lemma handshake_after_commit (req : FinalizeBlockRequest.t)
    (creq : CommitRequest.t) (ireq : InfoRequest.t) (a : CometApp) :
  fst (Commit true creq (snd (FinalizeBlock req a))) = Ok CommitResponse.zero /\
  fst (Info ireq (restart (snd (Commit true creq (snd (FinalizeBlock req a))))))
    = Ok {| InfoResponse.Data := "mycometApp";
            InfoResponse.Version := "v0.1.0";
            InfoResponse.AppVersion := 1;
            InfoResponse.LastBlockHeight :=
              FinalizeBlockRequest.Height req mod 256;
            InfoResponse.LastBlockAppHash :=
              Some (block_hash (FinalizeBlockRequest.Height req)
                      (FinalizeBlockRequest.Txs req)) |}.
Proof.
  rewrite (Commit_flushed creq (snd (FinalizeBlock req a))
             (block_hash (FinalizeBlockRequest.Height req)
                (FinalizeBlockRequest.Txs req)) eq_refl).
  split; [reflexivity|].
  unfold restart, NewCometApp. cbn [db snd fst FinalizeBlock lastHeight].
  rewrite GetLastBlockHashAndHeight_flushed. reflexivity.
Qed.

(** For a height below 256 the handshake after a restart agrees with
    what was executed and committed. *)
Lemma handshake_after_commit_below_256 (req : FinalizeBlockRequest.t)
    (creq : CommitRequest.t) (ireq : InfoRequest.t) (a : CometApp) :
  0 <= FinalizeBlockRequest.Height req < 256 ->
  exists (resp : FinalizeBlockResponse.t) (info : InfoResponse.t),
    fst (FinalizeBlock req a) = Ok resp /\
    fst (Info ireq (restart (snd (Commit true creq (snd (FinalizeBlock req a))))))
      = Ok info /\
    InfoResponse.LastBlockHeight info = FinalizeBlockRequest.Height req /\
    InfoResponse.LastBlockAppHash info = FinalizeBlockResponse.AppHash resp.
Proof.
  intros HH. destruct (handshake_after_commit req creq ireq a) as [_ Hinfo].
  do 2 eexists. split; [reflexivity|]. split; [exact Hinfo|].
  split; [|reflexivity]. apply Z.mod_small. exact HH.
Qed.

(** ** Commit *)




(** C3 at height 1: [FinalizeBlock] then [Commit] succeed, and the
    store holds the digest under [lastAppHash] but the single byte 01
    under [lastHeight], where the 8-byte big-endian encoding of 1 is
    00 00 00 00 00 00 00 01. *)
Theorem Commit_persists_height_as_one_byte :
  let executed := snd (FinalizeBlock (block 1) genesis) in
  let committed := Commit true CommitRequest.zero executed in
  fst committed = Ok CommitResponse.zero /\
  db (snd committed) !! key_lastAppHash
    = Some (block_hash 1 [of_string "a"; of_string "b"]) /\
  db (snd committed) !! key_lastHeight = Some [Byte.x01] /\
  PutUint64 (to_uint64 1)
    = [Byte.x00; Byte.x00; Byte.x00; Byte.x00; Byte.x00; Byte.x00; Byte.x00; Byte.x01] /\
  db (snd committed) !! key_lastHeight <> Some (PutUint64 (to_uint64 1)).
Proof.
  cbv zeta.
  rewrite (Commit_flushed CommitRequest.zero (snd (FinalizeBlock (block 1) genesis))
             (block_hash 1 [of_string "a"; of_string "b"]) eq_refl).
  cbn [fst snd db]. split; [reflexivity|].
  rewrite lookup_insert_eq.
  rewrite lookup_insert_ne by (apply not_eq_sym, reserved_keys_distinct).
  rewrite lookup_insert_eq.
  split; [reflexivity|]. split; [reflexivity|]. split; [reflexivity|].
  discriminate.
Qed.

(** ** Startup handshake *)

(** C4 at height 256: after [FinalizeBlock] and a successful [Commit]
    of height 256, [Info] after a restart reports the digest of that
    execution but height 0, not 256. *)
Theorem Info_after_restart_at_height_256 :
  let executed := FinalizeBlock (block 256) genesis in
  let committed := Commit true CommitRequest.zero (snd executed) in
  let info := Info {| InfoRequest.Version := "" |} (restart (snd committed)) in
  fst committed = Ok CommitResponse.zero /\
  exists (resp : FinalizeBlockResponse.t) (r : InfoResponse.t),
    fst executed = Ok resp /\
    fst info = Ok r /\
    InfoResponse.LastBlockAppHash r = FinalizeBlockResponse.AppHash resp /\
    InfoResponse.LastBlockHeight r = 0 /\
    InfoResponse.LastBlockHeight r <> 256.
Proof.
  cbv zeta.
  destruct (handshake_after_commit (block 256) CommitRequest.zero
              {| InfoRequest.Version := "" |} genesis) as [Hc Hinfo].
  split; [exact Hc|]. do 2 eexists.
  split; [reflexivity|]. split; [exact Hinfo|].
  split; [reflexivity|]. split; [reflexivity|]. discriminate.
Qed.

(** C5, as the specification states it, fails: with height 1 committed,
    executing height 2 makes [Info] report height 2 and the new digest
    before any [Commit] of height 2, while the store still holds the
    pair committed at height 1. *)
Lemma Info_reports_uncommitted_execution :
  let committed1 :=
    run [CallFinalizeBlock (block 1); CallCommit true CommitRequest.zero] genesis in
  let executed2 := snd (FinalizeBlock (block 2) committed1) in
  let h1 := block_hash 1 [of_string "a"; of_string "b"] in
  let h2 := block_hash 2 [of_string "a"; of_string "b"] in
  GetLastBlockHashAndHeight (db executed2) = (Some h1, 1) /\
  h1 <> h2 /\
  exists r : InfoResponse.t,
    fst (Info {| InfoRequest.Version := "" |} executed2) = Ok r /\
    InfoResponse.LastBlockHeight r = 2 /\
    InfoResponse.LastBlockAppHash r = Some h2.
Proof.
  cbv zeta. split; [vm_compute; reflexivity|].
  split; [vm_compute; discriminate|].
  eexists. split; [reflexivity|]. split; reflexivity.
Qed.

(** C5, amended: [Info] reports the pair cached in the application,
    whatever state the application is in, and changes nothing.  Right
    after start-up that pair is the one read from the reserved entries
    of the store.  Block execution leaves the store untouched but
    replaces the cached AppHash, so between the execution of a height
    and its [Commit], [Info] reports the digest that execution just
    computed (with the height that execution cached, the request's). *)
Theorem Info_reports_cached_pair :
  (forall (ireq : InfoRequest.t) (a : CometApp),
     Info ireq a
       = (Ok {| InfoResponse.Data := "mycometApp";
                InfoResponse.Version := "v0.1.0";
                InfoResponse.AppVersion := 1;
                InfoResponse.LastBlockHeight := lastHeight a;
                InfoResponse.LastBlockAppHash := lastHash a |}, a))
  /\
  (forall d : Dbm.DB,
     db (NewCometApp d) = d /\
     (lastHash (NewCometApp d), lastHeight (NewCometApp d))
       = GetLastBlockHashAndHeight d)
  /\
  (forall (req : FinalizeBlockRequest.t) (ireq : InfoRequest.t) (a : CometApp),
     exists resp : FinalizeBlockResponse.t,
       fst (FinalizeBlock req a) = Ok resp /\
       db (snd (FinalizeBlock req a)) = db a /\
       FinalizeBlockResponse.AppHash resp
         = Some (block_hash (FinalizeBlockRequest.Height req)
                   (FinalizeBlockRequest.Txs req)) /\
       lastHash (snd (FinalizeBlock req a))
         = FinalizeBlockResponse.AppHash resp /\
       Info ireq (snd (FinalizeBlock req a))
         = (Ok {| InfoResponse.Data := "mycometApp";
                  InfoResponse.Version := "v0.1.0";
                  InfoResponse.AppVersion := 1;
                  InfoResponse.LastBlockHeight := FinalizeBlockRequest.Height req;
                  InfoResponse.LastBlockAppHash :=
                    FinalizeBlockResponse.AppHash resp |},
            snd (FinalizeBlock req a))).
Proof.
  split; [|split].
  - intros ireq a. reflexivity.
  - intros d. unfold NewCometApp.
    destruct (GetLastBlockHashAndHeight d) as [hash height].
    split; reflexivity.
  - intros req ireq a. eexists. repeat split.
Qed.

(** ** The store across all handlers *)

(** C10: whatever the sequence of handler calls, every entry of the
    store other than [lastAppHash] and [lastHeight] is as it was before
    the sequence; block execution in particular writes nothing to the
    store. *)
Theorem only_reserved_keys_written :
  (forall (calls : list Call) (a : CometApp) (k : bytes),
     k <> key_lastAppHash -> k <> key_lastHeight ->
     db (run calls a) !! k = db a !! k)
  /\
  (forall (req : FinalizeBlockRequest.t) (a : CometApp),
     db (snd (FinalizeBlock req a)) = db a).
Proof.
  split; [|reflexivity].
  intros calls. unfold run.
  induction calls as [|c calls IH]; intros a k Hk1 Hk2; simpl.
  - reflexivity.
  - rewrite IH by assumption. by apply call_frame.
Qed.

Lemma only_reserved_keys_written_witness :
  let k := of_string "balance/alice" in
  let a := NewCometApp {[ k := of_string "10" ]} in
  let calls := [CallFinalizeBlock (block 1); CallCommit true CommitRequest.zero;
                CallFinalizeBlock (block 2); CallCommit false CommitRequest.zero;
                CallCommit true CommitRequest.zero] in
  k <> key_lastAppHash /\ k <> key_lastHeight /\
  db (run calls a) !! k = db a !! k.
Proof.
  cbv zeta. split; [discriminate|]. split; [discriminate|].
  apply (proj1 only_reserved_keys_written); discriminate.
Defined.

(** * Further properties of the handlers *)

(** ** Start-up: [GetLastBlockHashAndHeight] *)

Lemma byte_to_Z_range (b : byte) : 0 <= byte_to_Z b <= 255.
Proof.
  unfold byte_to_Z. pose proof (Byte.to_N_bounded b). lia.
Qed.

(** X1: on a store with no [lastHeight] entry, or an empty one, the
    height read at start-up is 0, and the hash is whatever is stored
    under [lastAppHash] ([nil] when absent). *)
Theorem GetLastBlockHashAndHeight_without_height :
  forall d : Dbm.DB,
    d !! key_lastHeight = None \/ d !! key_lastHeight = Some ([] : bytes) ->
    GetLastBlockHashAndHeight d = (d !! key_lastAppHash, 0).
Proof.
  intros d [H|H]; unfold GetLastBlockHashAndHeight, Dbm.Get; rewrite H;
    reflexivity.
Qed.

Lemma GetLastBlockHashAndHeight_without_height_witness :
  (∅ : Dbm.DB) !! key_lastHeight = None /\
  GetLastBlockHashAndHeight ∅ = ((∅ : Dbm.DB) !! key_lastAppHash, 0).
Proof.
  split; [reflexivity|].
  apply (GetLastBlockHashAndHeight_without_height ∅). left. reflexivity.
Defined.

(** X2: whatever the store holds, the height read at start-up lies
    between 0 and 255: only the first byte of the entry is read. *)
Theorem GetLastBlockHashAndHeight_height_range :
  forall d : Dbm.DB,
    0 <= snd (GetLastBlockHashAndHeight d) <= 255 /\
    0 <= lastHeight (NewCometApp d) <= 255.
Proof.
  intros d.
  assert (H : 0 <= snd (GetLastBlockHashAndHeight d) <= 255).
  { unfold GetLastBlockHashAndHeight. cbn [snd].
    destruct (len_nilable (Dbm.Get d key_lastHeight) >? 0); [|lia].
    apply byte_to_Z_range. }
  split; [exact H|]. unfold NewCometApp.
  destruct (GetLastBlockHashAndHeight d) as [hash height]. exact H.
Qed.

Lemma be_bytes_length (n : nat) (z : Z) : length (be_bytes n z) = n.
Proof. induction n as [|n IH]; simpl; [reflexivity | by rewrite IH]. Qed.

Lemma GetLastBlockHashAndHeight_first_byte (d : Dbm.DB) (b : byte)
    (rest : bytes) :
  d !! key_lastHeight = Some ((b :: rest) : bytes) ->
  snd (GetLastBlockHashAndHeight d) = byte_to_Z b.
Proof.
  intros Hd. unfold GetLastBlockHashAndHeight, Dbm.Get. rewrite Hd.
  cbn [snd len_nilable default hd from_option id].
  replace (len (b :: rest) >? 0) with true; [reflexivity|].
  symmetry. apply Z.gtb_lt. unfold len. simpl length. lia.
Qed.

(** X3: from a [lastHeight] entry holding the 8-byte big-endian
    encoding of [v], start-up reads the most significant byte, [v / 2^56]:
    every height below 2^56 stored that way is read as 0. *)
Theorem GetLastBlockHashAndHeight_of_PutUint64 :
  forall (d : Dbm.DB) (v : Z),
    0 <= v < 2 ^ 64 ->
    d !! key_lastHeight = Some (PutUint64 v) ->
    snd (GetLastBlockHashAndHeight d) = v / 2 ^ 56.
Proof.
  intros d v Hv Hd.
  rewrite (GetLastBlockHashAndHeight_first_byte d
             (byte_of_Z (Z.shiftr v 56)) (be_bytes 7 v) Hd).
  rewrite byte_to_of_Z, Z.shiftr_div_pow2 by lia.
  apply Z.mod_small. split.
  - apply Z.div_pos; lia.
  - apply Z.div_lt_upper_bound; lia.
Qed.

Lemma GetLastBlockHashAndHeight_of_PutUint64_witness :
  let d : Dbm.DB := {[ key_lastHeight := PutUint64 300 ]} in
  0 <= 300 < 2 ^ 64 /\
  d !! key_lastHeight = Some (PutUint64 300) /\
  snd (GetLastBlockHashAndHeight d) = 300 / 2 ^ 56.
Proof.
  cbv zeta. split; [lia|]. split; [apply lookup_singleton_eq|].
  apply GetLastBlockHashAndHeight_of_PutUint64; [lia|].
  apply lookup_singleton_eq.
Defined.

(** ** [Commit] and the cached pair *)

Lemma byte_of_Z_mod (z : Z) : byte_of_Z (z mod 256) = byte_of_Z z.
Proof. unfold byte_of_Z. by rewrite Z.mod_mod. Qed.

Lemma insert_pair_twice (m : Dbm.DB) (k1 k2 v1 v2 : bytes) :
  <[k2 := v2]> (<[k1 := v1]> (<[k2 := v2]> (<[k1 := v1]> m)))
  = <[k2 := v2]> (<[k1 := v1]> m).
Proof.
  apply map_eq. intros k. rewrite !lookup_insert.
  repeat case_decide; reflexivity.
Qed.

Lemma Commit_cache (flush_ok : bool) (req : CommitRequest.t) (a : CometApp) :
  lastHash (snd (Commit flush_ok req a)) = lastHash a /\
  lastHeight (snd (Commit flush_ok req a)) = lastHeight a.
Proof.
  destruct (lastHash a) as [h|] eqn:Hh.
  - destruct flush_ok.
    + rewrite (Commit_flushed _ _ _ Hh). split; reflexivity.
    + rewrite (Commit_flush_failed _ _ _ Hh). cbn [snd]. by split.
  - rewrite (Commit_nil_hash _ _ _ Hh). cbn [snd]. by split.
Qed.

Lemma Commit_ok_inv (flush_ok : bool) (req : CommitRequest.t) (a : CometApp) :
  is_ok (fst (Commit flush_ok req a)) = true ->
  flush_ok = true /\ exists h, lastHash a = Some h.
Proof.
  destruct (lastHash a) as [h|] eqn:Hh.
  - destruct flush_ok.
    + intros _. split; [reflexivity | by exists h].
    + rewrite (Commit_flush_failed _ _ _ Hh). discriminate.
  - rewrite (Commit_nil_hash _ _ _ Hh). discriminate.
Qed.

(** X4: after a successful [Commit] the reserved entries of the store
    read back, as start-up reads them, as the cached AppHash and the
    cached height modulo 256; a restart therefore resumes with that
    hash, that height modulo 256 and the same store. *)
Theorem Commit_then_restart :
  forall (flush_ok : bool) (req : CommitRequest.t) (a : CometApp),
    is_ok (fst (Commit flush_ok req a)) = true ->
    GetLastBlockHashAndHeight (db (snd (Commit flush_ok req a)))
      = (lastHash a, lastHeight a mod 256) /\
    restart (snd (Commit flush_ok req a))
      = {| db := db (snd (Commit flush_ok req a));
           lastHash := lastHash a;
           lastHeight := lastHeight a mod 256 |}.
Proof.
  intros flush_ok req a Hok.
  destruct (Commit_ok_inv _ _ _ Hok) as [-> [h Hh]].
  rewrite (Commit_flushed _ _ _ Hh). unfold restart, NewCometApp. cbn [snd db].
  rewrite GetLastBlockHashAndHeight_flushed, Hh. split; reflexivity.
Qed.

Lemma Commit_then_restart_witness :
  let a := snd (FinalizeBlock (block 300) genesis) in
  is_ok (fst (Commit true CommitRequest.zero a)) = true /\
  lastHeight (restart (snd (Commit true CommitRequest.zero a))) = 300 mod 256.
Proof.
  cbv zeta.
  assert (Hok : is_ok (fst (Commit true CommitRequest.zero
                             (snd (FinalizeBlock (block 300) genesis)))) = true)
    by reflexivity.
  split; [exact Hok|].
  rewrite (proj2 (Commit_then_restart _ _ _ Hok)). reflexivity.
Defined.

(** X5: [Commit] is idempotent: a second [Commit] right after a
    successful one succeeds and leaves the application and the store
    exactly as the first left them; so does a [Commit] that is the
    first call after a restart, as far as the store goes. *)
Theorem Commit_idempotent :
  forall (req1 req2 : CommitRequest.t) (a : CometApp),
    is_ok (fst (Commit true req1 a)) = true ->
    Commit true req2 (snd (Commit true req1 a))
      = (Ok CommitResponse.zero, snd (Commit true req1 a)) /\
    db (snd (Commit true req2 (restart (snd (Commit true req1 a)))))
      = db (snd (Commit true req1 a)).
Proof.
  intros req1 req2 a Hok.
  destruct (Commit_ok_inv _ _ _ Hok) as [_ [h Hh]].
  rewrite (Commit_flushed req1 a h Hh). cbn [snd]. split.
  - erewrite Commit_flushed by reflexivity. cbn [db lastHeight lastHash].
    by rewrite insert_pair_twice.
  - unfold restart, NewCometApp. cbn [db].
    rewrite GetLastBlockHashAndHeight_flushed.
    erewrite Commit_flushed by reflexivity. cbn [snd db lastHeight].
    by rewrite byte_of_Z_mod, insert_pair_twice.
Qed.

Lemma Commit_idempotent_witness :
  let a := snd (FinalizeBlock (block 7) genesis) in
  is_ok (fst (Commit true CommitRequest.zero a)) = true /\
  Commit true CommitRequest.zero (snd (Commit true CommitRequest.zero a))
    = (Ok CommitResponse.zero, snd (Commit true CommitRequest.zero a)).
Proof.
  cbv zeta.
  assert (Hok : is_ok (fst (Commit true CommitRequest.zero
                             (snd (FinalizeBlock (block 7) genesis)))) = true)
    by reflexivity.
  split; [exact Hok|].
  exact (proj1 (Commit_idempotent _ _ _ Hok)).
Defined.

(** X6: [Commit] never touches the cached pair: whether it succeeds or
    fails, the AppHash and height held in memory are the ones it was
    called with, and on success the value stored under [lastAppHash] is
    that cached AppHash, not a recomputed one. *)
Theorem Commit_persists_cached_hash :
  forall (flush_ok : bool) (req : CommitRequest.t) (a : CometApp),
    lastHash (snd (Commit flush_ok req a)) = lastHash a /\
    lastHeight (snd (Commit flush_ok req a)) = lastHeight a /\
    (is_ok (fst (Commit flush_ok req a)) = true ->
     db (snd (Commit flush_ok req a)) !! key_lastAppHash = lastHash a).
Proof.
  intros flush_ok req a.
  destruct (Commit_cache flush_ok req a) as [H1 H2].
  split; [exact H1|]. split; [exact H2|]. intros Hok.
  destruct (Commit_ok_inv _ _ _ Hok) as [-> [h Hh]].
  rewrite (Commit_flushed _ _ _ Hh), Hh. cbn [snd db].
  rewrite lookup_insert_ne by (apply not_eq_sym, reserved_keys_distinct).
  apply lookup_insert_eq.
Qed.

Lemma Commit_persists_cached_hash_witness :
  let a := snd (FinalizeBlock (block 7) genesis) in
  is_ok (fst (Commit true CommitRequest.zero a)) = true /\
  db (snd (Commit true CommitRequest.zero a)) !! key_lastAppHash = lastHash a.
Proof.
  cbv zeta.
  assert (Hok : is_ok (fst (Commit true CommitRequest.zero
                             (snd (FinalizeBlock (block 7) genesis)))) = true)
    by reflexivity.
  split; [exact Hok|].
  exact (proj2 (proj2 (Commit_persists_cached_hash _ _ _)) Hok).
Defined.

(** ** Execution followed by [Commit] *)

(** X7: after any [FinalizeBlock], from any state, [Commit] fails only
    if the flush fails: the digest just cached is never [nil]. *)
Theorem Commit_after_FinalizeBlock :
  forall (flush_ok : bool) (req : FinalizeBlockRequest.t)
         (creq : CommitRequest.t) (a : CometApp),
    fst (Commit flush_ok creq (snd (FinalizeBlock req a)))
      = if flush_ok then Ok CommitResponse.zero else Err errFlush.
Proof.
  intros flush_ok req creq a. destruct flush_ok.
  - by rewrite (Commit_flushed creq (snd (FinalizeBlock req a)) _ eq_refl).
  - by rewrite (Commit_flush_failed creq (snd (FinalizeBlock req a)) _ eq_refl).
Qed.

Lemma Commit_after_FinalizeBlock_witness :
  fst (Commit true CommitRequest.zero (snd (FinalizeBlock (block 9) genesis)))
    = Ok CommitResponse.zero /\
  fst (Commit false CommitRequest.zero (snd (FinalizeBlock (block 9) genesis)))
    = Err errFlush.
Proof.
  split.
  - exact (Commit_after_FinalizeBlock true (block 9) CommitRequest.zero genesis).
  - exact (Commit_after_FinalizeBlock false (block 9) CommitRequest.zero genesis).
Defined.

Lemma call_lastHash_some (c : Call) (a : CometApp) :
  lastHash a <> None -> lastHash (call c a) <> None.
Proof.
  intros Ha. destruct c; simpl; try exact Ha.
  - unfold ProcessProposal.
    destruct ((1000000 >? 0) && (sum_sizes (ProcessProposalRequest.Txs req) >? 1000000));
      exact Ha.
  - discriminate.
  - by rewrite (proj1 (Commit_cache flush_ok req a)).
Qed.

(** X8: once the cached AppHash is not [nil] it never becomes [nil]
    again, whatever handlers are called; from then on a [Commit] whose
    flush succeeds succeeds. *)
Theorem lastHash_stays_set :
  forall (calls : list Call) (creq : CommitRequest.t) (a : CometApp),
    lastHash a <> None ->
    lastHash (run calls a) <> None /\
    fst (Commit true creq (run calls a)) = Ok CommitResponse.zero.
Proof.
  intros calls creq a Ha.
  assert (H : lastHash (run calls a) <> None).
  { revert a Ha. unfold run.
    induction calls as [|c calls IH]; intros a Ha; simpl; [exact Ha|].
    apply IH. by apply call_lastHash_some. }
  split; [exact H|].
  destruct (lastHash (run calls a)) as [h|] eqn:Hh; [|congruence].
  by rewrite (Commit_flushed _ _ _ Hh).
Qed.

Lemma lastHash_stays_set_witness :
  let a := snd (FinalizeBlock (block 1) genesis) in
  let calls := [CallCommit false CommitRequest.zero;
                CallInfo {| InfoRequest.Version := "" |};
                CallCommit true CommitRequest.zero] in
  lastHash a <> None /\
  fst (Commit true CommitRequest.zero (run calls a)) = Ok CommitResponse.zero.
Proof.
  cbv zeta.
  assert (Ha : lastHash (snd (FinalizeBlock (block 1) genesis)) <> None)
    by discriminate.
  split; [exact Ha|].
  exact (proj2 (lastHash_stays_set _ _ _ Ha)).
Defined.

(** ** Proposals *)

Lemma PrepareProposal_spec (req : PrepareProposalRequest.t) (a : CometApp) :
  0 <= PrepareProposalRequest.MaxTxBytes req ->
  total_size (PrepareProposalRequest.Txs req) <= max_int64 ->
  exists out rest,
    PrepareProposal req a = (Ok {| PrepareProposalResponse.Txs := out |}, a) /\
    PrepareProposalRequest.Txs req = out ++ rest /\
    total_size out <= PrepareProposalRequest.MaxTxBytes req /\
    match rest with
    | [] => True
    | tx :: _ => PrepareProposalRequest.MaxTxBytes req < total_size out + len tx
    end.
Proof.
  intros HB Hmax. unfold PrepareProposal.
  destruct (prepare_loop_spec (PrepareProposalRequest.MaxTxBytes req)
              (PrepareProposalRequest.Txs req) [] 0)
    as (taken & rest & Htxs & Hrun & Hb & Hstop); [lia | lia |].
  exists taken, rest. rewrite Hrun. simpl. repeat split; [exact Htxs | lia |].
  destruct rest; [exact I | lia].
Qed.

Lemma PrepareProposal_all (req : PrepareProposalRequest.t) (a : CometApp) :
  total_size (PrepareProposalRequest.Txs req)
    <= PrepareProposalRequest.MaxTxBytes req <= max_int64 ->
  PrepareProposal req a
    = (Ok {| PrepareProposalResponse.Txs := PrepareProposalRequest.Txs req |}, a).
Proof.
  intros [Hfit HB].
  pose proof (total_size_nonneg (PrepareProposalRequest.Txs req)) as Hnn.
  destruct (PrepareProposal_spec req a) as (out & rest & Hrun & Htxs & _ & Hstop);
    [lia | lia |].
  destruct rest as [|tx rest].
  - rewrite app_nil_r in Htxs. by rewrite Htxs.
  - exfalso. rewrite Htxs, total_size_app in Hfit. simpl in Hfit.
    pose proof (total_size_nonneg rest). lia.
Qed.

(** X9: the prefix [PrepareProposal] returns is the longest that fits:
    its total size is within the budget, and when a candidate is left
    out, the first one left out would have taken the total over the
    budget.  Candidates after it are dropped too, whatever their
    size. *)
Theorem PrepareProposal_longest_prefix :
  forall (req : PrepareProposalRequest.t) (a : CometApp),
    0 <= PrepareProposalRequest.MaxTxBytes req ->
    total_size (PrepareProposalRequest.Txs req) <= max_int64 ->
    exists out rest,
      PrepareProposal req a
        = (Ok {| PrepareProposalResponse.Txs := out |}, a) /\
      PrepareProposalRequest.Txs req = out ++ rest /\
      total_size out <= PrepareProposalRequest.MaxTxBytes req /\
      match rest with
      | [] => True
      | tx :: _ =>
          PrepareProposalRequest.MaxTxBytes req < total_size out + len tx
      end.
Proof.
  intros req a HB Hmax. exact (PrepareProposal_spec req a HB Hmax).
Qed.

Lemma PrepareProposal_longest_prefix_witness :
  let req := {| PrepareProposalRequest.MaxTxBytes := 500;
                PrepareProposalRequest.Txs :=
                  [tx_of_size 300; tx_of_size 300; tx_of_size 100];
                PrepareProposalRequest.Height := 1;
                PrepareProposalRequest.Time := 0 |} in
  0 <= PrepareProposalRequest.MaxTxBytes req /\
  total_size (PrepareProposalRequest.Txs req) <= max_int64 /\
  exists out rest,
    PrepareProposal req genesis
      = (Ok {| PrepareProposalResponse.Txs := out |}, genesis) /\
    PrepareProposalRequest.Txs req = out ++ rest /\
    total_size out <= PrepareProposalRequest.MaxTxBytes req /\
    match rest with
    | [] => True
    | tx :: _ => PrepareProposalRequest.MaxTxBytes req < total_size out + len tx
    end.
Proof.
  cbv zeta. split; [vm_compute; discriminate|].
  split; [vm_compute; discriminate|].
  apply PrepareProposal_longest_prefix; vm_compute; discriminate.
Defined.

(** X10: with a negative [MaxTxBytes], [PrepareProposal] proposes no
    transaction at all (the budget is not read as "no limit"). *)
Theorem PrepareProposal_negative_budget :
  forall (req : PrepareProposalRequest.t) (a : CometApp),
    PrepareProposalRequest.MaxTxBytes req < 0 ->
    total_size (PrepareProposalRequest.Txs req) <= max_int64 ->
    PrepareProposal req a = (Ok {| PrepareProposalResponse.Txs := [] |}, a).
Proof.
  intros req a HB Hmax. unfold PrepareProposal.
  destruct (PrepareProposalRequest.Txs req) as [|tx txs]; [reflexivity|].
  simpl in *.
  pose proof (len_nonneg tx). pose proof (total_size_nonneg txs).
  rewrite wrap64_small by (unfold min_int64; lia).
  destruct (Z.gtb_spec (0 + len tx) (PrepareProposalRequest.MaxTxBytes req));
    [reflexivity | lia].
Qed.

Lemma PrepareProposal_negative_budget_witness :
  let req := {| PrepareProposalRequest.MaxTxBytes := -1;
                PrepareProposalRequest.Txs := [tx_of_size 1; []];
                PrepareProposalRequest.Height := 1;
                PrepareProposalRequest.Time := 0 |} in
  PrepareProposalRequest.MaxTxBytes req < 0 /\
  total_size (PrepareProposalRequest.Txs req) <= max_int64 /\
  PrepareProposal req genesis
    = (Ok {| PrepareProposalResponse.Txs := [] |}, genesis).
Proof.
  cbv zeta. split; [reflexivity|]. split; [vm_compute; discriminate|].
  apply PrepareProposal_negative_budget;
    [reflexivity | vm_compute; discriminate].
Defined.

(** X11: when all the candidates together fit the budget,
    [PrepareProposal] returns them all, unchanged and in order. *)
Theorem PrepareProposal_all_fit :
  forall (req : PrepareProposalRequest.t) (a : CometApp),
    total_size (PrepareProposalRequest.Txs req)
      <= PrepareProposalRequest.MaxTxBytes req <= max_int64 ->
    PrepareProposal req a
      = (Ok {| PrepareProposalResponse.Txs := PrepareProposalRequest.Txs req |}, a).
Proof. intros req a H. by apply PrepareProposal_all. Qed.

Lemma PrepareProposal_all_fit_witness :
  let req := {| PrepareProposalRequest.MaxTxBytes := 1000;
                PrepareProposalRequest.Txs :=
                  [tx_of_size 300; tx_of_size 300; tx_of_size 300];
                PrepareProposalRequest.Height := 1;
                PrepareProposalRequest.Time := 0 |} in
  total_size (PrepareProposalRequest.Txs req)
    <= PrepareProposalRequest.MaxTxBytes req <= max_int64 /\
  PrepareProposal req genesis
    = (Ok {| PrepareProposalResponse.Txs := PrepareProposalRequest.Txs req |},
       genesis).
Proof.
  cbv zeta.
  assert (H : total_size [tx_of_size 300; tx_of_size 300; tx_of_size 300]
              <= 1000 <= max_int64)
    by (split; vm_compute; discriminate).
  split; [exact H|].
  apply (PrepareProposal_all_fit
           {| PrepareProposalRequest.MaxTxBytes := 1000;
              PrepareProposalRequest.Txs :=
                [tx_of_size 300; tx_of_size 300; tx_of_size 300];
              PrepareProposalRequest.Height := 1;
              PrepareProposalRequest.Time := 0 |} genesis H).
Defined.

(** X12: a proposal built by [PrepareProposal] under a budget of at
    most 1,000,000 bytes is accepted by [ProcessProposal], on any
    application and whatever the other fields of the request. *)
Theorem prepared_proposal_is_accepted :
  forall (preq : PrepareProposalRequest.t) (a1 a2 : CometApp)
         (hash proposer : bytes) (height time : Z),
    0 <= PrepareProposalRequest.MaxTxBytes preq <= 1000000 ->
    total_size (PrepareProposalRequest.Txs preq) <= max_int64 ->
    exists out : list bytes,
      fst (PrepareProposal preq a1)
        = Ok {| PrepareProposalResponse.Txs := out |} /\
      ProcessProposal {| ProcessProposalRequest.Txs := out;
                         ProcessProposalRequest.Hash := hash;
                         ProcessProposalRequest.Height := height;
                         ProcessProposalRequest.Time := time;
                         ProcessProposalRequest.ProposerAddress := proposer |} a2
        = (Ok accept, a2).
Proof.
  intros preq a1 a2 hash proposer height time [HB0 HB1] Hmax.
  destruct (PrepareProposal_spec preq a1 HB0 Hmax)
    as (out & rest & Hrun & Htxs & Hfit & _).
  exists out. rewrite Hrun. split; [reflexivity|].
  unfold ProcessProposal. cbn [ProcessProposalRequest.Txs].
  rewrite sum_sizes_total by (unfold max_int64; lia).
  destruct (Z.gtb_spec (total_size out) 1000000); [lia | reflexivity].
Qed.

Lemma prepared_proposal_is_accepted_witness :
  let preq := {| PrepareProposalRequest.MaxTxBytes := 500;
                 PrepareProposalRequest.Txs :=
                   [tx_of_size 300; tx_of_size 300; tx_of_size 300];
                 PrepareProposalRequest.Height := 1;
                 PrepareProposalRequest.Time := 0 |} in
  0 <= PrepareProposalRequest.MaxTxBytes preq <= 1000000 /\
  total_size (PrepareProposalRequest.Txs preq) <= max_int64 /\
  exists out : list bytes,
    fst (PrepareProposal preq genesis)
      = Ok {| PrepareProposalResponse.Txs := out |} /\
    ProcessProposal {| ProcessProposalRequest.Txs := out;
                       ProcessProposalRequest.Hash := [];
                       ProcessProposalRequest.Height := 1;
                       ProcessProposalRequest.Time := 0;
                       ProcessProposalRequest.ProposerAddress := [] |} genesis
      = (Ok accept, genesis).
Proof.
  cbv zeta. split; [split; vm_compute; discriminate|].
  split; [vm_compute; discriminate|].
  apply prepared_proposal_is_accepted;
    [split; vm_compute; discriminate | vm_compute; discriminate].
Defined.

(** X13: under a budget above 1,000,000 bytes, candidates that fit the
    budget but add up to more than 1,000,000 bytes are all proposed by
    [PrepareProposal], and that very proposal is rejected by
    [ProcessProposal]. *)
Theorem prepared_proposal_over_fixed_budget_is_rejected :
  forall (preq : PrepareProposalRequest.t) (a1 a2 : CometApp)
         (hash proposer : bytes) (height time : Z),
    1000000 < total_size (PrepareProposalRequest.Txs preq) ->
    total_size (PrepareProposalRequest.Txs preq)
      <= PrepareProposalRequest.MaxTxBytes preq <= max_int64 ->
    PrepareProposal preq a1
      = (Ok {| PrepareProposalResponse.Txs := PrepareProposalRequest.Txs preq |},
         a1) /\
    ProcessProposal {| ProcessProposalRequest.Txs := PrepareProposalRequest.Txs preq;
                       ProcessProposalRequest.Hash := hash;
                       ProcessProposalRequest.Height := height;
                       ProcessProposalRequest.Time := time;
                       ProcessProposalRequest.ProposerAddress := proposer |} a2
      = (Ok reject, a2).
Proof.
  intros preq a1 a2 hash proposer height time Hbig Hfit.
  split; [by apply PrepareProposal_all|].
  unfold ProcessProposal. cbn [ProcessProposalRequest.Txs].
  rewrite sum_sizes_total by lia.
  destruct (Z.gtb_spec (total_size (PrepareProposalRequest.Txs preq)) 1000000);
    [reflexivity | lia].
Qed.

Lemma total_size_single (n : Z) :
  0 <= n -> total_size [tx_of_size (Z.to_nat n)] = n.
Proof.
  intros Hn. unfold total_size, fold_right.
  rewrite total_size_tx_of_size, Z2Nat.id by exact Hn. lia.
Qed.

Lemma prepared_proposal_over_fixed_budget_is_rejected_witness :
  let preq := {| PrepareProposalRequest.MaxTxBytes := 2000000;
                 PrepareProposalRequest.Txs := [tx_of_size (Z.to_nat 1000001)];
                 PrepareProposalRequest.Height := 1;
                 PrepareProposalRequest.Time := 0 |} in
  1000000 < total_size (PrepareProposalRequest.Txs preq) /\
  total_size (PrepareProposalRequest.Txs preq)
    <= PrepareProposalRequest.MaxTxBytes preq <= max_int64 /\
  ProcessProposal {| ProcessProposalRequest.Txs := PrepareProposalRequest.Txs preq;
                     ProcessProposalRequest.Hash := [];
                     ProcessProposalRequest.Height := 1;
                     ProcessProposalRequest.Time := 0;
                     ProcessProposalRequest.ProposerAddress := [] |} genesis
    = (Ok reject, genesis).
Proof.
  cbv zeta. cbn [PrepareProposalRequest.Txs PrepareProposalRequest.MaxTxBytes].
  assert (H1 : 1000000 < total_size [tx_of_size (Z.to_nat 1000001)])
    by (rewrite total_size_single; lia).
  assert (H2 : total_size [tx_of_size (Z.to_nat 1000001)] <= 2000000 <= max_int64)
    by (rewrite total_size_single by lia; unfold max_int64; lia).
  split; [exact H1|]. split; [exact H2|].
  exact (proj2 (prepared_proposal_over_fixed_budget_is_rejected
                  {| PrepareProposalRequest.MaxTxBytes := 2000000;
                     PrepareProposalRequest.Txs := [tx_of_size (Z.to_nat 1000001)];
                     PrepareProposalRequest.Height := 1;
                     PrepareProposalRequest.Time := 0 |}
                  genesis genesis [] [] 1 0 H1 H2)).
Defined.

(** ** The digest of a block *)

Lemma round_length (s : list Z) (kw : Z * Z) :
  length (SHA256.round s kw) = length s.
Proof.
  unfold SHA256.round.
  do 9 (destruct s as [|? s]; try reflexivity).
Qed.

Lemma rounds_length (kws : list (Z * Z)) (s : list Z) :
  length (fold_left SHA256.round kws s) = length s.
Proof.
  revert s. induction kws as [|kw kws IH]; intros s; simpl; [reflexivity|].
  by rewrite IH, round_length.
Qed.

Lemma compress_length (h block : list Z) :
  length (SHA256.compress h block) = length h.
Proof.
  unfold SHA256.compress.
  rewrite length_map, length_combine, rounds_length. lia.
Qed.

Lemma blocks_length (fuel : nat) (h ws : list Z) :
  length (SHA256.blocks fuel h ws) = length h.
Proof.
  revert h ws. induction fuel as [|fuel IH]; intros h ws; simpl; [reflexivity|].
  destruct ws; [reflexivity|]. by rewrite IH, compress_length.
Qed.

Lemma flat_be_bytes_length (n : nat) (ws : list Z) :
  length (flat_map (be_bytes n) ws) = (n * length ws)%nat.
Proof.
  induction ws as [|w ws IH]; simpl; [lia|].
  rewrite length_app, be_bytes_length, IH. lia.
Qed.

Lemma sum_length (msg : bytes) : length (SHA256.sum msg) = 32%nat.
Proof.
  unfold SHA256.sum. by rewrite flat_be_bytes_length, blocks_length.
Qed.

(** X14: the AppHash of every block is 32 bytes long and not [nil],
    for every height and every transaction list, the empty one
    included; the application caches exactly the digest it returns. *)
Theorem FinalizeBlock_AppHash_32_bytes :
  forall (req : FinalizeBlockRequest.t) (a : CometApp),
    exists (resp : FinalizeBlockResponse.t) (digest : bytes),
      fst (FinalizeBlock req a) = Ok resp /\
      FinalizeBlockResponse.AppHash resp = Some digest /\
      lastHash (snd (FinalizeBlock req a)) = Some digest /\
      length digest = 32%nat.
Proof.
  intros req a. do 2 eexists. split; [reflexivity|].
  split; [reflexivity|]. split; [reflexivity|].
  unfold block_hash, SHA256.Sum. apply sum_length.
Qed.

(** X15: the digest does not see where one transaction ends and the
    next begins: two blocks of the same height whose transactions
    concatenate to the same bytes get the same AppHash. *)
Theorem FinalizeBlock_AppHash_ignores_boundaries :
  forall (req1 req2 : FinalizeBlockRequest.t) (a1 a2 : CometApp),
    FinalizeBlockRequest.Height req1 = FinalizeBlockRequest.Height req2 ->
    concat (FinalizeBlockRequest.Txs req1) = concat (FinalizeBlockRequest.Txs req2) ->
    lastHash (snd (FinalizeBlock req1 a1)) = lastHash (snd (FinalizeBlock req2 a2)).
Proof.
  intros req1 req2 a1 a2 Hh Hc. simpl.
  by rewrite !block_hash_eq, Hh, Hc.
Qed.

Lemma FinalizeBlock_AppHash_ignores_boundaries_witness :
  let req1 := {| FinalizeBlockRequest.Txs := [of_string "ab"; of_string "c"];
                 FinalizeBlockRequest.Hash := [];
                 FinalizeBlockRequest.Height := 5;
                 FinalizeBlockRequest.Time := 0;
                 FinalizeBlockRequest.ProposerAddress := [] |} in
  let req2 := {| FinalizeBlockRequest.Txs := [of_string "a"; []; of_string "bc"];
                 FinalizeBlockRequest.Hash := [];
                 FinalizeBlockRequest.Height := 5;
                 FinalizeBlockRequest.Time := 0;
                 FinalizeBlockRequest.ProposerAddress := [] |} in
  FinalizeBlockRequest.Height req1 = FinalizeBlockRequest.Height req2 /\
  concat (FinalizeBlockRequest.Txs req1) = concat (FinalizeBlockRequest.Txs req2) /\
  FinalizeBlockRequest.Txs req1 <> FinalizeBlockRequest.Txs req2 /\
  lastHash (snd (FinalizeBlock req1 genesis))
    = lastHash (snd (FinalizeBlock req2 genesis)).
Proof.
  cbv zeta. split; [reflexivity|]. split; [reflexivity|].
  split; [discriminate|].
  apply FinalizeBlock_AppHash_ignores_boundaries; reflexivity.
Defined.

Lemma be_value_from (b : bytes) (acc : Z) :
  fold_left (fun acc x => acc * 256 + byte_to_Z x) b acc
  = acc * 256 ^ Z.of_nat (length b) + be_value b.
Proof.
  unfold be_value. revert acc.
  induction b as [|x b IH]; intros acc.
  - simpl. lia.
  - cbn [fold_left length]. rewrite IH, (IH (0 * 256 + byte_to_Z x)).
    rewrite Nat2Z.inj_succ, Z.pow_succ_r by lia. lia.
Qed.

Lemma be_value_be_bytes (n : nat) (z : Z) :
  be_value (be_bytes n z) = z mod 2 ^ (8 * Z.of_nat n).
Proof.
  induction n as [|n IH].
  - simpl. by rewrite Z.mod_1_r.
  - cbn [be_bytes]. unfold be_value. cbn [fold_left].
    rewrite be_value_from, be_bytes_length, IH, byte_to_of_Z.
    rewrite Z.shiftr_div_pow2 by lia.
    replace (8 * Z.of_nat (S n)) with (8 * Z.of_nat n + 8) by lia.
    rewrite Z.pow_add_r by lia.
    rewrite Z.rem_mul_r by lia.
    replace (256 ^ Z.of_nat n) with (2 ^ (8 * Z.of_nat n))
      by (rewrite Z.pow_mul_r by lia; reflexivity).
    change 256 with (2 ^ 8). lia.
Qed.

Lemma be_value_PutUint64 (height : Z) :
  be_value (PutUint64 (to_uint64 height)) = height mod 2 ^ 64.
Proof.
  unfold PutUint64, to_uint64. rewrite be_value_be_bytes.
  change (8 * Z.of_nat 8) with 64. apply Z.mod_mod. lia.
Qed.

(** X16: the eight bytes [FinalizeBlock] hashes for the height are its
    64-bit big-endian encoding: read back as a big-endian number they
    give the height modulo 2^64, hence the height itself when it is not
    negative. *)
Theorem height_encoding_round_trip :
  forall height : Z,
    length (PutUint64 (to_uint64 height)) = 8%nat /\
    be_value (PutUint64 (to_uint64 height)) = height mod 2 ^ 64 /\
    (0 <= height <= max_int64 ->
     be_value (PutUint64 (to_uint64 height)) = height).
Proof.
  intros height.
  pose proof (be_value_PutUint64 height) as H.
  split; [apply be_bytes_length|]. split; [exact H|].
  intros Hh. rewrite H. apply Z.mod_small. unfold max_int64 in Hh. lia.
Qed.

Lemma height_encoding_round_trip_witness :
  0 <= 258 <= max_int64 /\ be_value (PutUint64 (to_uint64 258)) = 258.
Proof.
  assert (H : 0 <= 258 <= max_int64) by (unfold max_int64; lia).
  split; [exact H|].
  exact (proj2 (proj2 (height_encoding_round_trip 258)) H).
Defined.

(** X17: what [FinalizeBlock] hashes determines the height and the
    concatenated transaction bytes: two blocks whose digests are taken
    over the same bytes have the same height (as an [int64]) and the
    same concatenation. *)
Theorem preimage_determines_height :
  forall (h1 h2 : Z) (txs1 txs2 : list bytes),
    min_int64 <= h1 <= max_int64 ->
    min_int64 <= h2 <= max_int64 ->
    block_hash h1 txs1 = SHA256.sum (preimage h1 txs1) /\
    (preimage h1 txs1 = preimage h2 txs2 ->
     h1 = h2 /\ concat txs1 = concat txs2).
Proof.
  intros h1 h2 txs1 txs2 H1 H2. split; [apply block_hash_eq|].
  unfold preimage. intros Heq.
  apply app_inj_1 in Heq as [Hh Hc];
    [|unfold PutUint64; by rewrite !be_bytes_length].
  split; [|exact Hc].
  apply (f_equal be_value) in Hh.
  rewrite !be_value_PutUint64 in Hh.
  unfold min_int64, max_int64 in *.
  pose proof (Z.div_mod h1 (2 ^ 64) ltac:(lia)) as D1.
  pose proof (Z.div_mod h2 (2 ^ 64) ltac:(lia)) as D2.
  pose proof (Z.mod_pos_bound h1 (2 ^ 64) ltac:(lia)) as B1.
  rewrite Hh in D1. lia.
Qed.

Lemma preimage_determines_height_witness :
  min_int64 <= 1 <= max_int64 /\
  (preimage 1 [of_string "ab"] = preimage 1 [of_string "a"; of_string "b"] ->
   1 = 1 /\ concat [of_string "ab"] = concat [of_string "a"; of_string "b"]).
Proof.
  assert (H : min_int64 <= 1 <= max_int64)
    by (unfold min_int64, max_int64; lia).
  split; [exact H|].
  exact (proj2 (preimage_determines_height 1 1 [of_string "ab"]
                  [of_string "a"; of_string "b"] H H)).
Defined.

(** ** Handlers that only read *)

Lemma call_read_only (c : Call) (a : CometApp) :
  read_only c = true -> call c a = a.
Proof.
  destruct c; simpl; try reflexivity; try discriminate.
  intros _. unfold ProcessProposal.
  destruct ((1000000 >? 0) && (sum_sizes (ProcessProposalRequest.Txs req) >? 1000000));
    reflexivity.
Qed.

(** X18: every handler other than [FinalizeBlock] and [Commit] leaves
    the application exactly as it found it, cached pair and store
    alike; so does any sequence of such calls. *)
Theorem read_only_calls_change_nothing :
  forall (calls : list Call) (a : CometApp),
    forallb read_only calls = true -> run calls a = a.
Proof.
  intros calls a. unfold run.
  induction calls as [|c calls IH]; simpl; [reflexivity|].
  intros [Hc Hcs]%andb_prop. rewrite call_read_only by exact Hc.
  by apply IH.
Qed.

Lemma read_only_calls_change_nothing_witness :
  let a := snd (FinalizeBlock (block 3) genesis) in
  let calls :=
    [CallInitChain;
     CallCheckTx {| CheckTxRequest.Tx := of_string "a"; CheckTxRequest.Type_ := 0 |};
     CallInfo {| InfoRequest.Version := "" |};
     CallQuery {| QueryRequest.Data := key_lastHeight;
                  QueryRequest.Path := "/kv";
                  QueryRequest.Height := 0;
                  QueryRequest.Prove := false |};
     CallListSnapshots; CallExtendVote] in
  forallb read_only calls = true /\ run calls a = a.
Proof.
  cbv zeta. split; [reflexivity|].
  apply read_only_calls_change_nothing. reflexivity.
Defined.

(** X19: [Query] answers every request, whatever its path and data and
    whatever the store holds, with no error and the empty response:
    code 0 and no value, also for a key that is in the store. *)
Theorem Query_returns_empty_response :
  forall (req : QueryRequest.t) (a : CometApp),
    exists resp : QueryResponse.t,
      Query req a = (Ok resp, a) /\
      QueryResponse.Code resp = 0 /\
      QueryResponse.Value resp = None.
Proof.
  intros req a. exists QueryResponse.zero. repeat split.
Qed.

(** ** What the store can come to hold *)

Lemma run_app (l1 l2 : list Call) (a : CometApp) :
  run (l1 ++ l2) a = run l2 (run l1 a).
Proof. unfold run. apply fold_left_app. Qed.

Lemma call_lastHeight_entry (c : Call) (a : CometApp) :
  db (call c a) !! key_lastHeight = db a !! key_lastHeight \/
  exists b : byte, db (call c a) !! key_lastHeight = Some [b].
Proof.
  destruct c; try (left; rewrite call_db_unchanged; [reflexivity | discriminate]).
  simpl. destruct (lastHash a) as [h|] eqn:Hh.
  - destruct flush_ok.
    + right. exists (byte_of_Z (lastHeight a)).
      rewrite (Commit_flushed _ _ _ Hh). cbn [snd db].
      apply lookup_insert_eq.
    + left. by rewrite (Commit_flush_failed _ _ _ Hh).
  - left. by rewrite (Commit_nil_hash _ _ _ Hh).
Qed.

(** X20: whatever handlers are called, the [lastHeight] entry of the
    store is either still the one the sequence started with or exactly
    one byte long: the program never writes a longer height. *)
Theorem stored_height_is_one_byte :
  forall (calls : list Call) (a : CometApp),
    db (run calls a) !! key_lastHeight = db a !! key_lastHeight \/
    exists b : byte, db (run calls a) !! key_lastHeight = Some [b].
Proof.
  intros calls. induction calls as [|c calls IH] using rev_ind; intros a.
  - left. reflexivity.
  - rewrite run_app. cbn [run fold_left].
    destruct (call_lastHeight_entry c (run calls a)) as [Heq|Hone].
    + destruct (IH a) as [H|[b H]].
      * left. by rewrite Heq.
      * right. exists b. etransitivity; [exact Heq | exact H].
    + right. exact Hone.
Qed.

Lemma hash_from_snoc (calls : list Call) (c : Call) (a : CometApp)
    (v : option bytes) :
  hash_from calls a v -> hash_from (calls ++ [c]) a v.
Proof.
  intros [H|(req & Hin & H)]; [by left|].
  right. exists req. split; [|exact H]. apply in_or_app. by left.
Qed.

Lemma cached_hash_from (calls : list Call) (a : CometApp) :
  hash_from calls a (lastHash (run calls a)).
Proof.
  induction calls as [|c calls IH] using rev_ind.
  - by left.
  - rewrite run_app. cbn [run fold_left].
    destruct c;
      try (rewrite call_read_only by reflexivity; by apply hash_from_snoc).
    + right. exists req. split; [apply in_or_app; right; by left | reflexivity].
    + simpl. rewrite (proj1 (Commit_cache flush_ok req (run calls a))).
      by apply hash_from_snoc.
Qed.

(** X21: whatever handlers are called, the [lastAppHash] entry of the
    store is either still the one the sequence started with, or the
    AppHash that was cached at the start, or the digest of a block that
    a [FinalizeBlock] of the sequence executed. *)
Theorem stored_hash_origin :
  forall (calls : list Call) (a : CometApp),
    db (run calls a) !! key_lastAppHash = db a !! key_lastAppHash \/
    hash_from calls a (db (run calls a) !! key_lastAppHash).
Proof.
  intros calls a. induction calls as [|c calls IH] using rev_ind.
  - left. reflexivity.
  - rewrite run_app. cbn [run fold_left].
    destruct c;
      try (rewrite call_db_unchanged by discriminate;
           destruct IH as [IH|IH]; [by left | right; by apply hash_from_snoc]).
    simpl. destruct (lastHash (run calls a)) as [h|] eqn:Hh.
    + destruct flush_ok.
      * right. rewrite (Commit_flushed _ _ _ Hh). cbn [snd db].
        rewrite lookup_insert_ne by (apply not_eq_sym, reserved_keys_distinct).
        rewrite lookup_insert_eq, <- Hh.
        apply hash_from_snoc, cached_hash_from.
      * rewrite (Commit_flush_failed _ _ _ Hh). cbn [snd].
        destruct IH as [IH|IH]; [by left | right; by apply hash_from_snoc].
    + rewrite (Commit_nil_hash _ _ _ Hh). cbn [snd].
      destruct IH as [IH|IH]; [by left | right; by apply hash_from_snoc].
Qed.

(** ** Several heights in a row *)

Lemma cycle_snoc (reqs : list FinalizeBlockRequest.t)
    (req : FinalizeBlockRequest.t) :
  cycle (reqs ++ [req])
  = cycle reqs ++ [CallFinalizeBlock req; CallCommit true CommitRequest.zero].
Proof. unfold cycle. rewrite flat_map_app. reflexivity. Qed.

(** X22: after any number of blocks executed and committed one after
    the other, whatever their heights, a restart resumes with the
    digest of the last block and its height modulo 256; the blocks
    before it leave no trace in what the handshake reports. *)
Theorem restart_after_blocks :
  forall (reqs : list FinalizeBlockRequest.t) (req : FinalizeBlockRequest.t)
         (ireq : InfoRequest.t) (a : CometApp),
    exists info : InfoResponse.t,
      fst (Info ireq (restart (run (cycle (reqs ++ [req])) a))) = Ok info /\
      InfoResponse.LastBlockAppHash info
        = Some (block_hash (FinalizeBlockRequest.Height req)
                  (FinalizeBlockRequest.Txs req)) /\
      InfoResponse.LastBlockHeight info
        = FinalizeBlockRequest.Height req mod 256.
Proof.
  intros reqs req ireq a. rewrite cycle_snoc, run_app.
  cbn [run fold_left call].
  destruct (handshake_after_commit req CommitRequest.zero ireq
              (fold_left (fun a c => call c a) (cycle reqs) a)) as [_ Hinfo].
  eexists. split; [exact Hinfo|]. split; reflexivity.
Qed.
